(** * latex_copilot: the translation pipeline of [main.py]

    A shallow embedding of [LatexProjectTranslator] (src/main.py): the
    response extractor (the fence regular expression and [str.replace]),
    the per-body [translate] loop, [estimate_tokens_cost],
    [translate_project] and [get_total_usage].

    Python [str] values are modelled by [string]; Python [int] by [Z]. *)

From Stdlib Require Import String Ascii List ZArith Lia Bool.
Import ListNotations.
Open Scope string_scope.

(* ================================================================== *)
(** * Strings *)
(* ================================================================== *)

Module Str.

Definition is_backtick (c : ascii) : bool := Ascii.eqb c "`"%char.

(** [s.startswith('```')] *)
Definition starts_with_fence (s : string) : bool :=
  match s with
  | String a (String b (String c _)) =>
      is_backtick a && is_backtick b && is_backtick c
  | _ => false
  end.

(** ['```' in s] *)
Fixpoint occurs_fence (s : string) : bool :=
  starts_with_fence s ||
  match s with
  | EmptyString => false
  | String _ s' => occurs_fence s'
  end.

(** ['`' not in s] *)
Fixpoint no_backtick (s : string) : bool :=
  match s with
  | EmptyString => true
  | String c s' => negb (is_backtick c) && no_backtick s'
  end.

(** [s.replace('```', '')]: the occurrences are found from left to right
    and do not overlap. *)
Fixpoint replace_fence (s : string) : string :=
  match s with
  | EmptyString => EmptyString
  | String a s1 =>
      match s1 with
      | String b (String c rest) =>
          if is_backtick a && is_backtick b && is_backtick c
          then replace_fence rest
          else String a (replace_fence s1)
      | _ => String a (replace_fence s1)
      end
  end.

(** [''.join(parts)] *)
Definition join (parts : list string) : string :=
  fold_right append "" parts.

(** [first] and then the texts of [more], each with a fence before it:
    ['```'.join([first] + more)]. *)
Fixpoint fenced (first : string) (more : list string) : string :=
  match more with
  | [] => first
  | piece :: rest => first ++ "```" ++ fenced piece rest
  end.

(** [s[4:]] *)
Definition after_four (s : string) : string :=
  match s with
  | String _ (String _ (String _ (String _ rest))) => rest
  | _ => ""
  end.

End Str.

(* ================================================================== *)
(** * The response extractor (main.py, lines 11 and 35-40) *)
(* ================================================================== *)

Module Extractor.
Import Str.

(** The tail of [triple_backticks_pattern] once the opening fence and the
    first character of the group are consumed: the lazy [.+?] takes as
    few further characters as possible (any character, [re.DOTALL])
    before the closing fence.  The result is what the group takes here. *)
Fixpoint lazy_until_fence (s : string) : option string :=
  if starts_with_fence s then Some ""
  else match s with
       | EmptyString => None
       | String c s' => option_map (String c) (lazy_until_fence s')
       end.

(** [re.match(r'```(.+?)```', s, re.DOTALL)]: the pattern anchored at the
    start of [s]; [.+?] needs one character at least.  Returns group 1. *)
Definition match_here (s : string) : option string :=
  match s with
  | String a (String b (String c (String d rest))) =>
      if is_backtick a && is_backtick b && is_backtick c
      then option_map (String d) (lazy_until_fence rest)
      else None
  | _ => None
  end.

(** [re.search(triple_backticks_pattern, s, re.DOTALL)]: the start
    positions are tried from left to right; returns [match.group(1)]. *)
Fixpoint re_search (s : string) : option string :=
  match match_here s with
  | Some g => Some g
  | None =>
      match s with
      | EmptyString => None
      | String _ s' => re_search s'
      end
  end.

(** Lines 36-40 of [translate]: what is appended to [translated_chunks]
    for a response text. *)
Definition extract (translated_txt : string) : string :=
  match re_search translated_txt with
  | Some group1 => replace_fence group1
  | None => replace_fence translated_txt
  end.

End Extractor.

(* ================================================================== *)
(** * Data model *)
(* ================================================================== *)

(** The parsed source tree, owned by the loader: verbatim text, command
    invocations and environments with their child nodes.  Every node keeps
    the source text it was parsed from, which [latex_verbatim] returns. *)
Inductive LatexNode : Type :=
| LatexCharsNode (chars : string)
| LatexMacroNode (macroname : string) (verbatim : string)
| LatexEnvNode (env : LatexEnvironmentNode)
with LatexEnvironmentNode : Type :=
| mkEnvironment (environmentname : string) (nodelist : list LatexNode)
                (verbatim : string).

Definition environmentname (e : LatexEnvironmentNode) : string :=
  match e with mkEnvironment name _ _ => name end.

Definition nodelist (e : LatexEnvironmentNode) : list LatexNode :=
  match e with mkEnvironment _ nodes _ => nodes end.

Definition latex_verbatim (node : LatexNode) : string :=
  match node with
  | LatexCharsNode chars => chars
  | LatexMacroNode _ verbatim => verbatim
  | LatexEnvNode (mkEnvironment _ _ verbatim) => verbatim
  end.

(** A role-tagged message. *)
Record Message : Type := mkMessage { role : string; content : string }.

(** [response['usage']]: each of the two keys may be absent. *)
Record Usage : Type := mkUsage {
  prompt_tokens : option Z;
  completion_tokens : option Z
}.

(** A completion response: [choices] holds [choice['message']] of every
    choice, [usage] is [None] when the key ['usage'] is absent. *)
Record Response : Type := mkResponse {
  choices : list Message;
  usage : option Usage
}.

Inductive Exception : Type :=
| CompletionError (reason : string)
| KeyError (key : string)
| IndexError.

Inductive Result (A : Type) : Type :=
| Ok (a : A)
| Raise (e : Exception).
Arguments Ok {A} a.
Arguments Raise {A} e.

(** The Translation Run State: [self.translated_chunks] and
    [self.translation_responses]. *)
Record RunState : Type := mkRunState {
  translated_chunks : Z;
  translation_responses : list Response
}.

(** What the outside world sees of a run, in order: the two progress
    callbacks (with the run state they can read when they are called), the
    requests submitted to the completion client and the files written. *)
Inductive Event : Type :=
| OngoingFile (source : string) (seen : RunState)
| Request (messages : list Message)
| ChunkComplete (seen : RunState)
| FileWrite (to_dir : string) (name : string) (text : string).

Record State : Type := mkState {
  run : RunState;
  n_requests : nat;
  trace : list Event
}.

(** ** The collaborators *)

(** [tex_source.LatexSourcesLoader]: [sources] is a dict, kept as an
    association list in key order. *)
Record LatexSourcesLoader : Type := mkLoader {
  sources : list (string * list LatexNode);
  main_source : string;
  find_env_node : LatexNode -> string -> option LatexEnvironmentNode;
  get_text_from_nodes : option (list LatexNode) -> string
}.

(** [splitter.LatexSourceSplitter], built from [chunk_size] and
    [count_tokens]. *)
Record LatexSourceSplitter : Type := mkSplitter {
  split_text : string -> list string
}.

(** [chat_prompt.ChatPromptTemplate] *)
Record ChatPromptTemplate : Type := mkTemplate {
  create_messages : string -> list Message
}.

(** Module [llm] with its [api_config]: the completion service answers its
    [n]-th request (counted from 0) on the given messages with a response
    or an error; [count_tokens] has a [text=] and a [messages=] form. *)
Record LLMService : Type := mkLLM {
  async_chat_completion : nat -> list Message -> Result Response;
  count_tokens_text : string -> Z;
  count_tokens_messages : list Message -> Z
}.

(** The fields of [LatexProjectTranslator] that never change during a run;
    a callback field is [true] when a callback is registered. *)
Record LatexProjectTranslator : Type := mkTranslator {
  source : LatexSourcesLoader;
  template : ChatPromptTemplate;
  llm : LLMService;
  splitter : LatexSourceSplitter;
  update_ongoing_file_cb : bool;
  complete_chunk_cb : bool
}.

(* ================================================================== *)
(** * A state and exception monad for the methods *)
(* ================================================================== *)

Definition M (A : Type) : Type := State -> Result A * State.

Definition ret {A} (a : A) : M A := fun st => (Ok a, st).

Definition bind {A B} (m : M A) (k : A -> M B) : M B :=
  fun st =>
    match m st with
    | (Ok a, st') => k a st'
    | (Raise e, st') => (Raise e, st')
    end.

Definition lift {A} (r : Result A) : M A := fun st => (r, st).

Definition when (b : bool) (m : M unit) : M unit :=
  if b then m else ret tt.

Definition modify_run (f : RunState -> RunState) : M unit :=
  fun st => (Ok tt, mkState (f (run st)) (n_requests st) (trace st)).

Definition emit (e : Event) : M unit :=
  fun st => (Ok tt, mkState (run st) (n_requests st) (trace st ++ [e])).

Definition emit_seen (e : RunState -> Event) : M unit :=
  fun st => emit (e (run st)) st.

Declare Scope monad_scope.
Delimit Scope monad_scope with monad.
Notation "x <- m ;; k" := (bind m (fun x => k))
  (at level 61, m at next level, right associativity) : monad_scope.
Notation "m ;; k" := (bind m (fun _ => k))
  (at level 61, right associativity) : monad_scope.
Open Scope monad_scope.

(* ================================================================== *)
(** * LatexProjectTranslator *)
(* ================================================================== *)

Definition newline : string := String (ascii_of_nat 10) "".

(** ['\n\\begin{document}\n'] *)
Definition begin_marker : string := newline ++ "\begin{document}" ++ newline.

(** ['\n\\end{document}'] *)
Definition end_marker : string := newline ++ "\end{document}".

(** [f'translated_{source}'] *)
Definition translated_name (source : string) : string :=
  "translated_" ++ source.

Section Translator.

Variable tr : LatexProjectTranslator.

(** [await async_chat_completion(self.api_config, messages)] *)
Definition chat_completion (messages : list Message) : M Response :=
  fun st =>
    (async_chat_completion (llm tr) (n_requests st) messages,
     mkState (run st) (S (n_requests st)) (trace st ++ [Request messages])).

(** [response['choices'][0]['message']['content']] *)
Definition first_content (response : Response) : Result string :=
  match choices response with
  | [] => Raise IndexError
  | message :: _ => Ok (content message)
  end.

(** The body of the [for chunk in text_chunks] loop of [translate]. *)
Definition translate_chunk (chunk : string) : M string :=
  response <- chat_completion (create_messages (template tr) chunk) ;;
  modify_run (fun s =>
    mkRunState (translated_chunks s + 1) (translation_responses s)) ;;
  when (complete_chunk_cb tr) (emit_seen ChunkComplete) ;;
  modify_run (fun s =>
    mkRunState (translated_chunks s) (translation_responses s ++ [response])) ;;
  translated_txt <- lift (first_content response) ;;
  ret (Extractor.extract translated_txt).

Fixpoint translate_loop (text_chunks : list string)
         (translated : list string) : M (list string) :=
  match text_chunks with
  | [] => ret translated
  | chunk :: rest =>
      t <- translate_chunk chunk ;;
      translate_loop rest (translated ++ [t])
  end.

Definition translate (text : string) : M string :=
  translated <- translate_loop (split_text (splitter tr) text) [] ;;
  ret (Str.join translated).

(** [estimate_tokens_cost]: the loop adds to [result_tokens]. *)
Fixpoint estimate_loop (text_chunks : list string) (result_tokens : Z)
  : M Z :=
  match text_chunks with
  | [] => ret result_tokens
  | chunk :: rest =>
      let messages := create_messages (template tr) chunk in
      let message_tokens := count_tokens_messages (llm tr) messages in
      estimate_loop rest (result_tokens + message_tokens)%Z
  end.

Definition estimate_tokens_cost (text : string) : M (nat * Z) :=
  let text_chunks := split_text (splitter tr) text in
  result_tokens <- estimate_loop text_chunks 0%Z ;;
  let translation_tokens := count_tokens_text (llm tr) text in
  ret (List.length text_chunks, (result_tokens + translation_tokens)%Z).

(** [self.source.sources[key]] *)
Definition source_nodes (key : string) : Result (list LatexNode) :=
  match find (fun entry => String.eqb (fst entry) key)
             (sources (source tr)) with
  | Some (_, nodes) => Ok nodes
  | None => Raise (KeyError key)
  end.

(** One turn of the loop over the main source's nodes; the loop variables
    are [document_nodes], [text_before_document_env] and
    [text_after_document_env]. *)
Definition scan_node (vars : option (list LatexNode) * string * string)
           (node : LatexNode) : option (list LatexNode) * string * string :=
  let '(document_nodes, text_before, text_after) := vars in
  match find_env_node (source tr) node "document" with
  | Some document_node => (Some (nodelist document_node), text_before, text_after)
  | None =>
      match document_nodes with
      | None => (None, text_before ++ latex_verbatim node, text_after)
      | Some _ => (document_nodes, text_before, text_after ++ latex_verbatim node)
      end
  end.

Definition scan_nodes (nodes : list LatexNode)
  : option (list LatexNode) * string * string :=
  fold_left scan_node nodes (None, "", end_marker).

(** The loop over [self.source.sources.keys()]. *)
Fixpoint translate_aux (to_dir : string) (keys : list string) : M unit :=
  match keys with
  | [] => ret tt
  | src :: rest =>
      if String.eqb src (main_source (source tr))
      then translate_aux to_dir rest
      else
        when (update_ongoing_file_cb tr) (emit_seen (OngoingFile src)) ;;
        nodes <- lift (source_nodes src) ;;
        let txt := get_text_from_nodes (source tr) (Some nodes) in
        translated_txt <- translate txt ;;
        emit (FileWrite to_dir (translated_name src) translated_txt) ;;
        translate_aux to_dir rest
  end.

(** The two [async with aiofiles.open(...)] blocks are the [FileWrite]
    events.  The host file system is not modelled: a run in which it
    refuses a file is not described here, and what is said of a run that
    returns takes its return as a hypothesis. *)
Definition translate_project (to_dir : string) : M unit :=
  modify_run (fun s => mkRunState (translated_chunks s) []) ;;
  modify_run (fun s => mkRunState 0 (translation_responses s)) ;;
  when (update_ongoing_file_cb tr)
       (emit_seen (OngoingFile (main_source (source tr)))) ;;
  nodes <- lift (source_nodes (main_source (source tr))) ;;
  let '(document_nodes, text_before, text_after) := scan_nodes nodes in
  let text_before := text_before ++ begin_marker in
  let txt := get_text_from_nodes (source tr) document_nodes in
  translated_txt <- translate txt ;;
  let main_full_text := text_before ++ translated_txt ++ text_after in
  emit (FileWrite to_dir (translated_name (main_source (source tr)))
                  main_full_text) ;;
  translate_aux to_dir (map fst (sources (source tr))).

End Translator.

Section TotalWork.

Variable tr : LatexProjectTranslator.

(** The first loop of [estimate_total_work]: [document_nodes] after the
    loop over the nodes of the main source. *)
Definition find_document_nodes (nodes : list LatexNode)
  : option (list LatexNode) :=
  fold_left (fun document_nodes node =>
               match find_env_node (source tr) node "document" with
               | Some document_node => Some (nodelist document_node)
               | None => document_nodes
               end) nodes None.

(** The second loop: the texts of the other sources are appended to
    [all_tex_sources]. *)
Fixpoint collect_sources (keys : list string) (all_tex_sources : list string)
  : M (list string) :=
  match keys with
  | [] => ret all_tex_sources
  | src :: rest =>
      if String.eqb src (main_source (source tr))
      then collect_sources rest all_tex_sources
      else
        nodes <- lift (source_nodes tr src) ;;
        let txt := get_text_from_nodes (source tr) (Some nodes) in
        collect_sources rest (all_tex_sources ++ [txt])
  end.

(** The third loop: the estimates of the texts are added up. *)
Fixpoint estimate_sources (texts : list string) (total_chunks : nat)
         (total_tokens : Z) : M (nat * Z) :=
  match texts with
  | [] => ret (total_chunks, total_tokens)
  | text :: rest =>
      estimate <- estimate_tokens_cost tr text ;;
      let '(n_chunks, n_tokens) := estimate in
      estimate_sources rest (total_chunks + n_chunks)
                       (total_tokens + n_tokens)%Z
  end.

Definition estimate_total_work : M (nat * Z) :=
  nodes <- lift (source_nodes tr (main_source (source tr))) ;;
  let document_nodes := find_document_nodes nodes in
  all_tex_sources <-
    collect_sources (map fst (sources (source tr)))
                    [get_text_from_nodes (source tr) document_nodes] ;;
  estimate_sources all_tex_sources 0 0%Z.

End TotalWork.

(** [get_total_usage]: one turn of the loop over the recorded responses.
    A missing key raises [KeyError] at the access that needs it and the
    handler goes on with the next response. *)
Definition add_usage (totals : Z * Z) (response : Response) : Z * Z :=
  let '(prompt, completion) := totals in
  match usage response with
  | None => (prompt, completion)
  | Some u =>
      match prompt_tokens u with
      | None => (prompt, completion)
      | Some p =>
          let prompt := (prompt + p)%Z in
          match completion_tokens u with
          | None => (prompt, completion)
          | Some c => (prompt, (completion + c)%Z)
          end
      end
  end.

(** [translation_responses] is a list from [__init__] on, so the [is None]
    guard of the method never fires. *)
Definition get_total_usage (s : RunState) : Z * Z :=
  fold_left add_usage (translation_responses s) (0%Z, 0%Z).

(** A response whose usage is absent or has both of its fields. *)
Definition whole_usage (response : Response) : Prop :=
  usage response = None \/
  exists p c, usage response = Some (mkUsage (Some p) (Some c)).

(** The tokens of a response with both usage fields, [(0, 0)] for any
    other response. *)
Definition usage_pair (response : Response) : Z * Z :=
  match usage response with
  | Some (mkUsage (Some p) (Some c)) => (p, c)
  | _ => (0%Z, 0%Z)
  end.

(* ================================================================== *)
(** * Observations of a run *)
(* ================================================================== *)

(** The run states the chunk-complete callback saw, in order. *)
Definition chunk_callbacks (evs : list Event) : list RunState :=
  flat_map (fun e => match e with ChunkComplete seen => [seen] | _ => [] end)
           evs.

(** The files written, in order. *)
Definition files_written (evs : list Event)
  : list (string * string * string) :=
  flat_map (fun e => match e with
                     | FileWrite to_dir name text => [(to_dir, name, text)]
                     | _ => []
                     end) evs.

(** The course of a run without the run state and the texts: which body is
    announced, which messages are submitted, which file is written. *)
Inductive Activity : Type :=
| Ongoing (source : string)
| Submit (messages : list Message)
| WriteFile (name : string).

Definition activity_of (e : Event) : list Activity :=
  match e with
  | OngoingFile src _ => [Ongoing src]
  | Request messages => [Submit messages]
  | ChunkComplete _ => []
  | FileWrite _ name _ => [WriteFile name]
  end.

Definition activities (evs : list Event) : list Activity :=
  flat_map activity_of evs.

Definition written_names (acts : list Activity) : list string :=
  flat_map (fun a => match a with WriteFile name => [name] | _ => [] end) acts.

(** The verbatim text of a node sequence. *)
Definition verbatim_text (nodes : list LatexNode) : string :=
  Str.join (map latex_verbatim nodes).

Section Schedule.

Variable tr : LatexProjectTranslator.

(** The requests of one body: one per chunk, in chunk order. *)
Definition submits_of (chunks : list string) : list Activity :=
  map (fun chunk => Submit (create_messages (template tr) chunk)) chunks.

Definition submits (text : string) : list Activity :=
  submits_of (split_text (splitter tr) text).

(** The events of one turn of the loop of [translate] whose request was
    answered, when the turn starts in [st]. *)
Definition chunk_events (st : State) (chunk : string) : list Event :=
  Request (create_messages (template tr) chunk)
    :: (if complete_chunk_cb tr
        then [ChunkComplete (mkRunState (translated_chunks (run st) + 1)
                                        (translation_responses (run st)))]
        else []).

(** The state after the ongoing-file callback for [src], if there is
    one, was called in [st]. *)
Definition announced (src : string) (st : State) : State :=
  mkState (run st) (n_requests st)
          (trace st ++
             if update_ongoing_file_cb tr
             then [OngoingFile src (run st)] else []).

(** The state after [text] was written to the file [name]. *)
Definition written (to_dir name text : string) (st : State) : State :=
  mkState (run st) (n_requests st)
          (trace st ++ [FileWrite to_dir name text]).

(** The text of the main output for the translated inner text. *)
Definition main_full_text (nodes : list LatexNode) (translated_txt : string)
  : string :=
  (snd (fst (scan_nodes tr nodes)) ++ begin_marker)
    ++ translated_txt ++ snd (scan_nodes tr nodes).

Definition announce (src : string) : list Activity :=
  if update_ongoing_file_cb tr then [Ongoing src] else [].

(** A body is a source name with the text that is translated for it. *)
Definition body_schedule (body : string * string) : list Activity :=
  announce (fst body) ++ submits (snd body)
           ++ [WriteFile (translated_name (fst body))].

Definition main_body (nodes : list LatexNode) : string * string :=
  (main_source (source tr),
   get_text_from_nodes (source tr) (fst (fst (scan_nodes tr nodes)))).

(** The auxiliary bodies among [keys], in the order of [keys]. *)
Fixpoint aux_bodies (keys : list string) : list (string * string) :=
  match keys with
  | [] => []
  | src :: rest =>
      if String.eqb src (main_source (source tr)) then aux_bodies rest
      else
        match source_nodes tr src with
        | Ok nodes =>
            (src, get_text_from_nodes (source tr) (Some nodes))
              :: aux_bodies rest
        | Raise _ => aux_bodies rest
        end
  end.

(** The bodies of the project: the main source first, then the others in
    key order. *)
Definition project_bodies (main_nodes : list LatexNode)
  : list (string * string) :=
  main_body main_nodes :: aux_bodies (map fst (sources (source tr))).

Definition project_schedule (main_nodes : list LatexNode) : list Activity :=
  flat_map body_schedule (project_bodies main_nodes).

(** The state in which [translate_project] starts to translate the main
    body, when it is called in [st]. *)
Definition entry_state (st : State) : State :=
  mkState (mkRunState 0 []) (n_requests st)
          (trace st ++
             if update_ongoing_file_cb tr
             then [OngoingFile (main_source (source tr)) (mkRunState 0 [])]
             else []).

(** The activities of a run that stopped while it translated one of
    [bodies]: the bodies before it are complete, the body itself was
    announced and some of its requests were submitted. *)
Definition aborted_in (bodies : list (string * string))
           (acts : list Activity) : Prop :=
  exists done body rest part more,
    bodies = (done ++ body :: rest)%list /\
    acts = (flat_map body_schedule done ++ announce (fst body) ++ part)%list /\
    submits (snd body) = (part ++ more)%list.

End Schedule.

Section Expected.

Variable tr : LatexProjectTranslator.

(** The number of chunks of a list of bodies. *)
Definition chunk_total (bodies : list (string * string)) : nat :=
  fold_right (fun body n =>
                List.length (split_text (splitter tr) (snd body)) + n)
             0 bodies.

(** The tokens [estimate_tokens_cost] counts for a text. *)
Definition text_tokens (text : string) : Z :=
  (fold_right Z.add 0
     (map (fun chunk =>
             count_tokens_messages (llm tr)
               (create_messages (template tr) chunk))
          (split_text (splitter tr) text))
   + count_tokens_text (llm tr) text)%Z.

Definition token_total (bodies : list (string * string)) : Z :=
  fold_right (fun body n => (text_tokens (snd body) + n)%Z) 0%Z bodies.

(** [st'] is [st] after [k] more chunks were completed: [k] responses
    appended, the counter [k] higher. *)
Definition advanced (st st' : State) (k : nat) : Prop :=
  exists new,
    List.length new = k /\
    translation_responses (run st')
    = (translation_responses (run st) ++ new)%list /\
    translated_chunks (run st')
    = (translated_chunks (run st) + Z.of_nat k)%Z.

(** The translation of a text by a client whose answer to a list of
    messages has the text [reply messages]. *)
Definition translation (reply : list Message -> string) (text : string)
  : string :=
  Str.join (map (fun chunk =>
                   Extractor.extract (reply (create_messages (template tr)
                                                             chunk)))
                (split_text (splitter tr) text)).

End Expected.

(** What a recorded response adds to the totals of [get_total_usage]. *)
Definition usage_counted (response : Response) : Z * Z :=
  match usage response with
  | Some (mkUsage (Some p) (Some c)) => (p, c)
  | Some (mkUsage (Some p) None) => (p, 0%Z)
  | _ => (0%Z, 0%Z)
  end.

(** The reading of the chunk-complete callback that has the chunk's
    response recorded when the callback runs: the [k]-th callback of a call
    entered in run state [before] sees the counter incremented [k+1] times
    and [k+1] more responses. *)
Definition notified_after_record (before : RunState) (evs : list Event)
  : Prop :=
  forall k seen,
    nth_error (chunk_callbacks evs) k = Some seen ->
    translated_chunks seen = (translated_chunks before + Z.of_nat k + 1)%Z /\
    List.length (translation_responses seen)
    = List.length (translation_responses before) + k + 1.

(* ================================================================== *)
(** * A small project to run the methods on *)
(* ================================================================== *)

Module Demo.

(** Modelled from the spec: [find_env_node] of the loader (tex_source is
    not part of the sources at hand), "a way to locate the node
    representing a named environment", by a recursive search through the
    environments. *)
Fixpoint find_env_node (node : LatexNode) (name : string)
  : option LatexEnvironmentNode :=
  match node with
  | LatexEnvNode e => find_in_env e name
  | _ => None
  end
with find_in_env (e : LatexEnvironmentNode) (name : string)
  : option LatexEnvironmentNode :=
  match e with
  | mkEnvironment envname nodes _ =>
      if String.eqb envname name then Some e
      else (fix search (l : list LatexNode) :=
              match l with
              | [] => None
              | n :: rest =>
                  match find_env_node n name with
                  | Some found => Some found
                  | None => search rest
                  end
              end) nodes
  end.

(** Modelled from the spec: [get_text_from_nodes] of the loader, "a way
    to flatten a node sequence back into literal source text"; without a
    node sequence the text is empty. *)
Definition get_text_from_nodes (nodes : option (list LatexNode)) : string :=
  match nodes with
  | Some l => verbatim_text l
  | None => ""
  end.

Fixpoint take (n : nat) (s : string) : string :=
  match n, s with
  | S n', String c s' => String c (take n' s')
  | _, _ => ""
  end.

Fixpoint drop (n : nat) (s : string) : string :=
  match n, s with
  | S n', String _ s' => drop n' s'
  | _, _ => s
  end.

Fixpoint pieces (fuel : nat) (size : nat) (s : string) : list string :=
  match fuel, s with
  | S fuel', String _ _ => take size s :: pieces fuel' size (drop size s)
  | _, _ => []
  end.

(** A splitter that cuts after every eight characters. *)
Definition splitter : LatexSourceSplitter :=
  mkSplitter (fun text => pieces (String.length text) 8 text).

Definition template : ChatPromptTemplate :=
  mkTemplate (fun chunk =>
    [mkMessage "system" "Translate; answer between triple backticks.";
     mkMessage "user" chunk]).

Definition user_text (messages : list Message) : string :=
  Str.join (map content (filter (fun m => String.eqb (role m) "user")
                                messages)).

Definition count_text (text : string) : Z := Z.of_nat (String.length text).

Definition count_messages (messages : list Message) : Z :=
  fold_right Z.add 0%Z (map (fun m => count_text (content m)) messages).

(** A completion service that sends the user text back between fences. *)
Definition echo (messages : list Message) : Response :=
  mkResponse
    [mkMessage "assistant" ("```" ++ user_text messages ++ "```")]
    (Some (mkUsage (Some (count_messages messages))
                   (Some (count_text (user_text messages))))).

Definition echo_service : LLMService :=
  mkLLM (fun _ messages => Ok (echo messages)) count_text count_messages.

(** The same service, out of order from its [n]-th request on. *)
Definition failing_service (n : nat) : LLMService :=
  mkLLM (fun k messages =>
           if Nat.leb n k then Raise (CompletionError "unavailable")
           else Ok (echo messages))
        count_text count_messages.

Definition document_env : LatexEnvironmentNode :=
  mkEnvironment "document"
    [LatexCharsNode "Hello "; LatexMacroNode "LaTeX" "\LaTeX"]
    "\begin{document}  Hello \LaTeX\end{document} ".

Definition main_nodes : list LatexNode :=
  [LatexMacroNode "documentclass" "\documentclass{article}";
   LatexEnvNode document_env;
   LatexCharsNode "% end"].

Definition loader : LatexSourcesLoader :=
  mkLoader
    [("a.tex", [LatexCharsNode "An appendix."]);
     ("m.tex", main_nodes);
     ("b.tex", [LatexCharsNode "B"])]
    "m.tex" find_env_node get_text_from_nodes.

Definition translator (service : LLMService) : LatexProjectTranslator :=
  mkTranslator loader template service splitter true true.

(** A translator whose main source is not among the sources. *)
Definition orphan : LatexProjectTranslator :=
  mkTranslator
    (mkLoader [("a.tex", [LatexCharsNode "An appendix."])] "main.tex"
              find_env_node get_text_from_nodes)
    template echo_service splitter true true.

(** A service whose answers have no choice from its [n]-th request on. *)
Definition mute_service (n : nat) : LLMService :=
  mkLLM (fun k messages =>
           if Nat.leb n k then Ok (mkResponse [] None)
           else Ok (echo messages))
        count_text count_messages.

(** What the echo service answers. *)
Definition echo_reply (messages : list Message) : string :=
  "```" ++ user_text messages ++ "```".

(** A project whose main source has no document environment. *)
Definition plain_nodes : list LatexNode :=
  [LatexMacroNode "section" "\section{One}"; LatexCharsNode " text"].

Definition plain : LatexProjectTranslator :=
  mkTranslator
    (mkLoader [("p.tex", plain_nodes)] "p.tex"
              find_env_node get_text_from_nodes)
    template echo_service splitter true true.

(** A project whose main source has two document environments. *)
Definition first_env : LatexEnvironmentNode :=
  mkEnvironment "document" [LatexCharsNode "one"]
                "\begin{document}one\end{document}".

Definition second_env : LatexEnvironmentNode :=
  mkEnvironment "document" [LatexCharsNode "two"]
                "\begin{document}two\end{document}".

Definition twice_nodes : list LatexNode :=
  [LatexCharsNode "% head"; LatexEnvNode first_env; LatexCharsNode "% mid";
   LatexEnvNode second_env; LatexCharsNode "% tail"].

Definition twice : LatexProjectTranslator :=
  mkTranslator
    (mkLoader [("t.tex", twice_nodes)] "t.tex"
              find_env_node get_text_from_nodes)
    template echo_service splitter true true.

Definition fresh : State := mkState (mkRunState 0 []) 0 [].

(** A state left by an earlier run. *)
Definition used : State :=
  mkState (mkRunState 7 [mkResponse [] None]) 7
          [FileWrite "out" "translated_old.tex" "old"].

End Demo.

(* ================================================================== *)
(** * Facts about the string functions *)
(* ================================================================== *)

Module StrFacts.
Import Str.

Lemma append_assoc (a b c : string) : (a ++ b) ++ c = a ++ (b ++ c).
Proof. induction a as [|x a IH]; simpl; [reflexivity | now rewrite IH]. Qed.

Lemma append_nil_r (a : string) : a ++ "" = a.
Proof. induction a as [|x a IH]; simpl; [reflexivity | now rewrite IH]. Qed.

(** Whether a string that has two backticks after [String a p] starts with
    a fence is decided before anything that follows them. *)
Lemma starts_with_fence_cut (a : ascii) (p r : string) :
  starts_with_fence (String a (p ++ "``" ++ r))
  = starts_with_fence (String a (p ++ "``")).
Proof. destruct p as [|b [|c p]]; reflexivity. Qed.

Lemma occurs_fence_cons (a : ascii) (s : string) :
  occurs_fence (String a s) = false ->
  starts_with_fence (String a s) = false /\ occurs_fence s = false.
Proof.
  intros H. change (occurs_fence (String a s))
    with (starts_with_fence (String a s) || occurs_fence s) in H.
  now apply orb_false_elim in H.
Qed.

(** A text without backticks has no fence, also with two backticks
    put after it. *)
Lemma no_backtick_two (s : string) :
  no_backtick s = true -> occurs_fence (s ++ "``") = false.
Proof.
  induction s as [|a s IH]; intros Hs; [reflexivity|].
  simpl in Hs. apply andb_prop in Hs. destruct Hs as [Ha Hs].
  apply negb_true_iff in Ha.
  change (occurs_fence (String a s ++ "``"))
    with (starts_with_fence (String a (s ++ "``"))
          || occurs_fence (s ++ "``")).
  rewrite (IH Hs), orb_false_r.
  destruct (s ++ "``") as [|b [|c t]]; simpl; try reflexivity.
  now rewrite Ha.
Qed.

Lemma replace_fence_head (a : ascii) (s : string) :
  is_backtick a = false ->
  replace_fence (String a s) = String a (replace_fence s).
Proof.
  intros Ha. destruct s as [|b [|c rest]]; simpl; try reflexivity.
  now rewrite Ha.
Qed.

Lemma replace_fence_second (a b : ascii) (s : string) :
  is_backtick b = false ->
  replace_fence (String a (String b s))
  = String a (replace_fence (String b s)).
Proof.
  intros Hb. destruct s as [|c rest].
  - reflexivity.
  - change (replace_fence (String a (String b (String c rest))))
      with (if is_backtick a && is_backtick b && is_backtick c
            then replace_fence rest
            else String a (replace_fence (String b (String c rest)))).
    now rewrite Hb, andb_false_r.
Qed.

Lemma replace_fence_third (a b c : ascii) (s : string) :
  is_backtick c = false ->
  replace_fence (String a (String b (String c s)))
  = String a (replace_fence (String b (String c s))).
Proof.
  intros Hc.
  change (replace_fence (String a (String b (String c s))))
    with (if is_backtick a && is_backtick b && is_backtick c
          then replace_fence s
          else String a (replace_fence (String b (String c s)))).
  now rewrite Hc, andb_false_r.
Qed.

(** [s.replace('```', '')] is [s] when [s] has no backtick. *)
Lemma replace_fence_no_backtick (s : string) :
  no_backtick s = true -> replace_fence s = s.
Proof.
  induction s as [|a s IH]; intros H; [reflexivity|].
  simpl in H. apply andb_prop in H. destruct H as [Ha Hs].
  apply negb_true_iff in Ha.
  now rewrite (replace_fence_head _ _ Ha), (IH Hs).
Qed.

(** What is left after the replacement never starts with a fence ... *)
Lemma replace_fence_step (a : ascii) (s1 : string) :
  starts_with_fence (String a s1) = false ->
  replace_fence (String a s1) = String a (replace_fence s1) /\
  starts_with_fence (String a (replace_fence s1)) = false.
Proof.
  intros H. destruct (is_backtick a) eqn:Ha.
  2:{ split; [now apply replace_fence_head|].
      destruct (replace_fence s1) as [|x [|y t]]; simpl; try reflexivity.
      now rewrite Ha. }
  destruct s1 as [|b s2]; [now split|].
  destruct (is_backtick b) eqn:Hb.
  2:{ rewrite (replace_fence_second a b s2 Hb).
      rewrite (replace_fence_head b s2 Hb). split; [reflexivity|].
      destruct (replace_fence s2) as [|y t]; simpl; try reflexivity.
      now rewrite Hb, andb_false_r. }
  destruct s2 as [|c s3]; [now split|].
  assert (Hc : is_backtick c = false).
  { simpl in H. now rewrite Ha, Hb in H. }
  rewrite (replace_fence_third a b c s3 Hc).
  rewrite (replace_fence_second b c s3 Hc).
  rewrite (replace_fence_head c s3 Hc). split; [reflexivity|].
  simpl. now rewrite Hc, andb_false_r.
Qed.

(** ... and holds no fence at all. *)
Lemma replace_fence_free_bounded (n : nat) :
  forall s, String.length s <= n -> occurs_fence (replace_fence s) = false.
Proof.
  induction n as [|n IH]; intros s Hn.
  - destruct s; [reflexivity | simpl in Hn; lia].
  - destruct s as [|a s1]; [reflexivity|].
    destruct (starts_with_fence (String a s1)) eqn:Hf.
    + destruct s1 as [|b [|c rest]]; try discriminate.
      simpl in Hf. simpl replace_fence. rewrite Hf.
      apply IH. simpl in Hn. lia.
    + destruct (replace_fence_step a s1 Hf) as [-> Hs].
      change (occurs_fence (String a (replace_fence s1)))
        with (starts_with_fence (String a (replace_fence s1))
              || occurs_fence (replace_fence s1)).
      rewrite Hs. simpl. apply IH. simpl in Hn. lia.
Qed.

Lemma replace_fence_free (s : string) :
  occurs_fence (replace_fence s) = false.
Proof. exact (replace_fence_free_bounded (String.length s) s (le_n _)). Qed.

End StrFacts.

Module ExtractorFacts.
Import Str Extractor StrFacts.

Lemma match_here_none (s : string) :
  starts_with_fence s = false -> match_here s = None.
Proof.
  intros H. destruct s as [|a [|b [|c [|d rest]]]]; try reflexivity.
  simpl in *. now rewrite H.
Qed.

(** The lazy group stops at the first closing fence. *)
Lemma lazy_until_fence_first (q post : string) :
  occurs_fence (q ++ "``") = false ->
  lazy_until_fence (q ++ "```" ++ post) = Some q.
Proof.
  induction q as [|a q IH]; intros H; [reflexivity|].
  change ((String a q) ++ "``") with (String a (q ++ "``")) in H.
  apply occurs_fence_cons in H. destruct H as [Hs Ho].
  change ((String a q) ++ "```" ++ post)
    with (String a (q ++ "``" ++ (String "`" post))).
  unfold lazy_until_fence; fold lazy_until_fence.
  rewrite (starts_with_fence_cut a q (String "`" post)), Hs.
  change (q ++ "``" ++ String "`" post) with (q ++ "```" ++ post).
  now rewrite (IH Ho).
Qed.

(** The search returns the leftmost region, closed as early as possible,
    whatever follows its closing fence. *)
Lemma re_search_first (pre q post : string) (c : ascii) :
  occurs_fence (pre ++ "``") = false ->
  occurs_fence (q ++ "``") = false ->
  re_search (pre ++ "```" ++ String c q ++ "```" ++ post)
  = Some (String c q).
Proof.
  intros Hpre Hq. induction pre as [|a pre IH].
  - change ("" ++ "```" ++ String c q ++ "```" ++ post)
      with (String "`" (String "`" (String "`"
              (String c (q ++ "```" ++ post))))).
    unfold re_search, match_here; fold re_search.
    simpl andb. cbv iota.
    now rewrite (lazy_until_fence_first q post Hq).
  - change ((String a pre) ++ "``") with (String a (pre ++ "``")) in Hpre.
    apply occurs_fence_cons in Hpre. destruct Hpre as [Hs Ho].
    change ((String a pre) ++ "```" ++ String c q ++ "```" ++ post)
      with (String a (pre ++ "``" ++
              (String "`" (String c q ++ "```" ++ post)))).
    unfold re_search; fold re_search.
    rewrite match_here_none
      by (now rewrite starts_with_fence_cut).
    exact (IH Ho).
Qed.

(** ** The search, read backwards *)

Lemma is_backtick_eq (a : ascii) : is_backtick a = true -> a = "`"%char.
Proof. apply Ascii.eqb_eq. Qed.

Lemma starts_with_fence_inv (s : string) :
  starts_with_fence s = true -> exists rest, s = "```" ++ rest.
Proof.
  destruct s as [|a [|b [|c rest]]]; try discriminate. simpl.
  intros H. apply andb_prop in H. destruct H as [H Hc].
  apply andb_prop in H. destruct H as [Ha Hb].
  apply is_backtick_eq in Ha, Hb, Hc. subst. now exists rest.
Qed.

Lemma occurs_fence_tail (a : ascii) (s : string) :
  occurs_fence s = true -> occurs_fence (String a s) = true.
Proof.
  intros H. change (occurs_fence (String a s))
    with (starts_with_fence (String a s) || occurs_fence s).
  now rewrite H, orb_true_r.
Qed.

Lemma occurs_fence_start (s : string) :
  starts_with_fence s = true -> occurs_fence s = true.
Proof. intros H. destruct s; simpl in *; [discriminate | now rewrite H]. Qed.

(** The lazy group closes exactly when a fence follows. *)
Lemma lazy_until_fence_none (s : string) :
  lazy_until_fence s = None -> occurs_fence s = false.
Proof.
  induction s as [|a s IH]; [reflexivity|].
  unfold lazy_until_fence; fold lazy_until_fence.
  destruct (starts_with_fence (String a s)) eqn:E; [discriminate|].
  intros H. change (occurs_fence (String a s))
    with (starts_with_fence (String a s) || occurs_fence s).
  rewrite E. simpl. apply IH.
  now destruct (lazy_until_fence s).
Qed.

Lemma lazy_until_fence_some (s q : string) :
  lazy_until_fence s = Some q -> occurs_fence s = true.
Proof.
  revert q. induction s as [|a s IH]; intros q; [discriminate|].
  unfold lazy_until_fence; fold lazy_until_fence.
  destruct (starts_with_fence (String a s)) eqn:E.
  - intros _. now apply occurs_fence_start.
  - destruct (lazy_until_fence s) as [q'|] eqn:L; [|discriminate].
    intros _. apply occurs_fence_tail. now apply (IH q').
Qed.

Lemma lazy_until_fence_sound (s : string) :
  forall q, lazy_until_fence s = Some q ->
    exists post, s = q ++ "```" ++ post /\ occurs_fence (q ++ "``") = false.
Proof.
  induction s as [|a s IH]; intros q; [discriminate|].
  unfold lazy_until_fence; fold lazy_until_fence.
  destruct (starts_with_fence (String a s)) eqn:E.
  - intros H. inversion H; subst q.
    destruct (starts_with_fence_inv _ E) as (rest & ->). now exists rest.
  - destruct (lazy_until_fence s) as [q'|] eqn:L; [|discriminate].
    intros H. inversion H; subst q.
    destruct (IH q' eq_refl) as (post & -> & Hq). exists post.
    split; [reflexivity|].
    change (occurs_fence (String a q' ++ "``"))
      with (starts_with_fence (String a (q' ++ "``"))
            || occurs_fence (q' ++ "``")).
    rewrite Hq, orb_false_r.
    rewrite <- (starts_with_fence_cut a q' (String "`" post)). exact E.
Qed.

Lemma lazy_until_fence_complete (q post : string) :
  exists g, lazy_until_fence (q ++ "```" ++ post) = Some g.
Proof.
  induction q as [|a q (g & IH)]; [now exists ""|].
  change (String a q ++ "```" ++ post) with (String a (q ++ "```" ++ post)).
  unfold lazy_until_fence; fold lazy_until_fence.
  destruct (starts_with_fence (String a (q ++ "```" ++ post)));
    [now exists "" |].
  exists (String a g). now rewrite IH.
Qed.

Lemma match_here_sound (s g : string) :
  match_here s = Some g ->
  exists c q post,
    g = String c q /\ s = "```" ++ g ++ "```" ++ post /\
    occurs_fence (q ++ "``") = false.
Proof.
  destruct s as [|a [|b [|c [|d rest]]]]; try discriminate.
  unfold match_here.
  destruct (is_backtick a && is_backtick b && is_backtick c) eqn:E;
    [|discriminate].
  destruct (lazy_until_fence rest) as [q|] eqn:L; [|discriminate].
  intros H. inversion H; subst g.
  destruct (lazy_until_fence_sound rest q L) as (post & -> & Hq).
  apply andb_prop in E. destruct E as [E Hc].
  apply andb_prop in E. destruct E as [Ha Hb].
  apply is_backtick_eq in Ha, Hb, Hc. subst.
  now exists d, q, post.
Qed.

(** A region found leaves a fence after the fourth character. *)
Lemma re_search_needs_close (s : string) :
  forall g, re_search s = Some g -> occurs_fence (after_four s) = true.
Proof.
  induction s as [|a s IH]; intros g; [discriminate|].
  unfold re_search; fold re_search.
  destruct (match_here (String a s)) as [g'|] eqn:M.
  - intros _. destruct s as [|b [|c [|d rest]]]; try discriminate.
    unfold match_here in M.
    destruct (is_backtick a && is_backtick b && is_backtick c);
      [|discriminate].
    destruct (lazy_until_fence rest) as [q|] eqn:L; [|discriminate].
    exact (lazy_until_fence_some rest q L).
  - intros H. apply IH in H.
    destruct s as [|b [|c [|d [|e rest]]]]; try discriminate.
    simpl in *. now apply occurs_fence_tail.
Qed.

(** When the pattern fails at an opening fence, it fails further on. *)
Lemma re_search_after_failed_fence (a : ascii) (s : string) :
  starts_with_fence (String a s) = true ->
  match_here (String a s) = None ->
  re_search s = None.
Proof.
  intros F M. destruct (re_search s) as [g|] eqn:R; [|reflexivity].
  apply re_search_needs_close in R.
  destruct s as [|b [|c [|d rest]]]; try discriminate.
  unfold match_here in M. simpl in F. rewrite F in M.
  destruct (lazy_until_fence rest) as [q|] eqn:L; [discriminate|].
  apply lazy_until_fence_none in L.
  destruct rest as [|e rest]; [discriminate|].
  simpl in R. apply (occurs_fence_tail e) in R. congruence.
Qed.

Lemma re_search_sound (s : string) :
  forall g, re_search s = Some g ->
    exists pre c q post,
      g = String c q /\
      s = pre ++ "```" ++ g ++ "```" ++ post /\
      occurs_fence (pre ++ "``") = false /\
      occurs_fence (q ++ "``") = false.
Proof.
  induction s as [|a s IH]; intros g; [discriminate|].
  unfold re_search; fold re_search.
  destruct (match_here (String a s)) as [g'|] eqn:M.
  - intros H. inversion H; subst g'.
    destruct (match_here_sound _ _ M) as (c & q & post & Hg & Hs & Hq).
    exists "", c, q, post. now repeat split.
  - intros H.
    assert (F : starts_with_fence (String a s) = false).
    { destruct (starts_with_fence (String a s)) eqn:F; [|reflexivity].
      rewrite (re_search_after_failed_fence a s F M) in H. discriminate. }
    destruct (IH g H) as (pre & c & q & post & Hg & Hs & Hpre & Hq).
    exists (String a pre), c, q, post. repeat split; auto.
    + now rewrite Hs.
    + change (occurs_fence (String a pre ++ "``"))
        with (starts_with_fence (String a (pre ++ "``"))
              || occurs_fence (pre ++ "``")).
      rewrite Hpre, orb_false_r.
      rewrite <- (starts_with_fence_cut a pre
                    (String "`" (g ++ "```" ++ post))).
      now rewrite Hs in F.
Qed.

Lemma re_search_complete (pre q post : string) (c : ascii) :
  exists g, re_search (pre ++ "```" ++ String c q ++ "```" ++ post) = Some g.
Proof.
  induction pre as [|a pre (g & IH)].
  - destruct (lazy_until_fence_complete q post) as (g & Hg).
    exists (String c g).
    change ("" ++ "```" ++ String c q ++ "```" ++ post)
      with (String "`" (String "`" (String "`"
              (String c (q ++ "```" ++ post))))).
    unfold re_search, match_here; fold re_search.
    simpl andb. cbv iota. now rewrite Hg.
  - change (String a pre ++ "```" ++ String c q ++ "```" ++ post)
      with (String a (pre ++ "```" ++ String c q ++ "```" ++ post)).
    unfold re_search; fold re_search.
    destruct (match_here _) as [g'|]; [now exists g' | now exists g].
Qed.

(** Without a fence there is nothing to find and nothing to replace. *)
Lemma re_search_fence_free (s : string) :
  occurs_fence s = false -> re_search s = None.
Proof.
  induction s as [|a s IH]; intros H; [reflexivity|].
  apply occurs_fence_cons in H. destruct H as [F O].
  unfold re_search; fold re_search.
  now rewrite (match_here_none _ F), (IH O).
Qed.

Lemma replace_fence_fence_free (s : string) :
  occurs_fence s = false -> replace_fence s = s.
Proof.
  induction s as [|a s IH]; intros H; [reflexivity|].
  apply occurs_fence_cons in H. destruct H as [F O].
  destruct (replace_fence_step a s F) as [-> _]. now rewrite (IH O).
Qed.

(** ** What the replacement keeps *)

Lemma fenced_cons (a : ascii) (first : string) (more : list string) :
  fenced (String a first) more = String a (fenced first more).
Proof. destruct more; reflexivity. Qed.

(** The replacement takes fences out of the text and nothing else: the
    text is a sequence of pieces with a fence between them, and the result
    is the pieces put together. *)
Lemma replace_fence_pieces_bounded (n : nat) :
  forall s, String.length s <= n ->
    exists first more,
      s = fenced first more /\ replace_fence s = first ++ join more.
Proof.
  induction n as [|n IH]; intros s Hn.
  - destruct s; [now exists "", [] | simpl in Hn; lia].
  - destruct s as [|a s1]; [now exists "", []|].
    destruct (starts_with_fence (String a s1)) eqn:Hf.
    + destruct (starts_with_fence_inv _ Hf) as (rest & Hs).
      destruct s1 as [|b [|c rest']]; try discriminate.
      inversion Hs; subst a b c rest'.
      destruct (IH rest) as (first & more & Hr & Hp);
        [simpl in Hn; lia|].
      exists "", (first :: more). split.
      * simpl. now rewrite <- Hr.
      * change (replace_fence (String "`" (String "`" (String "`" rest))))
          with (replace_fence rest).
        now rewrite Hp.
    + destruct (replace_fence_step a s1 Hf) as [-> _].
      destruct (IH s1) as (first & more & Hr & Hp); [simpl in Hn; lia|].
      exists (String a first), more. split.
      * now rewrite fenced_cons, <- Hr.
      * now rewrite Hp.
Qed.

Lemma replace_fence_pieces (s : string) :
  exists first more,
    s = fenced first more /\ replace_fence s = first ++ join more.
Proof. exact (replace_fence_pieces_bounded (String.length s) s (le_n _)). Qed.

End ExtractorFacts.


(* ================================================================== *)
(** * Facts about the methods *)
(* ================================================================== *)

Open Scope list_scope.

Lemma activities_app (a b : list Event) :
  activities (a ++ b) = activities a ++ activities b.
Proof. apply flat_map_app. Qed.

Lemma files_written_app (a b : list Event) :
  files_written (a ++ b) = files_written a ++ files_written b.
Proof. apply flat_map_app. Qed.

Lemma chunk_callbacks_app (a b : list Event) :
  chunk_callbacks (a ++ b) = chunk_callbacks a ++ chunk_callbacks b.
Proof. apply flat_map_app. Qed.

Lemma written_names_app (a b : list Activity) :
  written_names (a ++ b) = written_names a ++ written_names b.
Proof. apply flat_map_app. Qed.

Section MethodFacts.

Variable tr : LatexProjectTranslator.

Lemma translate_chunk_raise (st : State) (chunk : string) (e : Exception) :
  async_chat_completion (llm tr) (n_requests st) (create_messages (template tr) chunk)
  = Raise e ->
  translate_chunk tr chunk st
  = (Raise e, mkState (run st) (S (n_requests st))
                      (trace st ++ [Request (create_messages (template tr) chunk)])).
Proof.
  intros H. unfold translate_chunk, bind, chat_completion.
  now rewrite H.
Qed.

Lemma translate_chunk_ok (st : State) (chunk : string) (r : Response) :
  async_chat_completion (llm tr) (n_requests st) (create_messages (template tr) chunk)
  = Ok r ->
  translate_chunk tr chunk st
  = (match first_content r with
     | Ok txt => Ok (Extractor.extract txt)
     | Raise e => Raise e
     end,
     mkState (mkRunState (translated_chunks (run st) + 1)
                         (translation_responses (run st) ++ [r]))
             (S (n_requests st))
             (trace st ++ chunk_events tr st chunk)).
Proof.
  intros H. unfold translate_chunk, bind, chat_completion, chunk_events.
  rewrite H.
  unfold modify_run, when, emit_seen, emit, lift, ret; simpl.
  destruct (complete_chunk_cb tr); simpl;
    destruct (first_content r); simpl;
    rewrite <- ?app_assoc; reflexivity.
Qed.

(** What one turn of the loop shows to the outside. *)
Lemma translate_chunk_trace (st : State) (chunk : string) :
  exists evs,
    trace (snd (translate_chunk tr chunk st)) = trace st ++ evs /\
    files_written evs = [] /\
    activities evs = [Submit (create_messages (template tr) chunk)] /\
    n_requests (snd (translate_chunk tr chunk st)) = S (n_requests st).
Proof.
  destruct (async_chat_completion (llm tr) (n_requests st)
                                  (create_messages (template tr) chunk)) as [r|e] eqn:H.
  - rewrite (translate_chunk_ok _ _ _ H). simpl.
    exists (chunk_events tr st chunk). split; [reflexivity|].
    unfold chunk_events. destruct (complete_chunk_cb tr); now repeat split.
  - rewrite (translate_chunk_raise _ _ _ H). simpl.
    exists [Request (create_messages (template tr) chunk)]. now repeat split.
Qed.

Lemma translate_loop_cons (chunk : string) (rest acc : list string)
      (st : State) :
  translate_loop tr (chunk :: rest) acc st
  = match translate_chunk tr chunk st with
    | (Ok t, st1) => translate_loop tr rest (acc ++ [t]) st1
    | (Raise e, st1) => (Raise e, st1)
    end.
Proof. reflexivity. Qed.

(** The loop of [translate] submits the chunks in order, one request
    each, stops at the first failure and writes no file. *)
Lemma translate_loop_trace (chunks : list string) :
  forall (acc : list string) (st : State),
  exists evs,
    trace (snd (translate_loop tr chunks acc st)) = trace st ++ evs /\
    files_written evs = [] /\
    match fst (translate_loop tr chunks acc st) with
    | Ok _ => activities evs = submits_of tr chunks
    | Raise _ => exists more, submits_of tr chunks = activities evs ++ more
    end.
Proof.
  induction chunks as [|chunk rest IH]; intros acc st.
  - exists []. simpl. rewrite app_nil_r. now repeat split.
  - destruct (translate_chunk_trace st chunk) as (evs & Ht & Hf & Ha & _).
    rewrite translate_loop_cons.
    destruct (translate_chunk tr chunk st) as [[t|e] st1] eqn:Hc;
      simpl in Ht.
    + destruct (IH (acc ++ [t]) st1) as (evs' & Ht' & Hf' & Ha').
      exists (evs ++ evs'). rewrite Ht', Ht, app_assoc.
      split; [reflexivity|]. rewrite files_written_app, Hf, Hf'.
      split; [reflexivity|]. rewrite activities_app, Ha.
      destruct (fst (translate_loop tr rest (acc ++ [t]) st1)).
      * simpl. now rewrite Ha'.
      * destruct Ha' as (more & Hm). exists more. simpl. now rewrite Hm.
    + exists evs. simpl. repeat split; auto.
      exists (submits_of tr rest). now rewrite Ha.
Qed.

Lemma translate_eq (text : string) (st : State) :
  translate tr text st
  = match translate_loop tr (split_text (splitter tr) text) [] st with
    | (Ok translated, st') => (Ok (Str.join translated), st')
    | (Raise e, st') => (Raise e, st')
    end.
Proof. reflexivity. Qed.

Lemma translate_trace (text : string) (st : State) :
  exists evs,
    trace (snd (translate tr text st)) = trace st ++ evs /\
    files_written evs = [] /\
    match fst (translate tr text st) with
    | Ok _ => activities evs = submits tr text
    | Raise _ => exists more, submits tr text = activities evs ++ more
    end.
Proof.
  rewrite translate_eq.
  destruct (translate_loop_trace (split_text (splitter tr) text) [] st)
    as (evs & Ht & Hf & Ha).
  exists evs.
  destruct (translate_loop tr (split_text (splitter tr) text) [] st)
    as [[out|e] st']; simpl in *; auto.
Qed.

(** ** The loop over the auxiliary sources *)

Lemma when_announce (src : string) (st : State) :
  when (update_ongoing_file_cb tr) (emit_seen (OngoingFile src)) st
  = (Ok tt, announced tr src st).
Proof.
  unfold when, announced, emit_seen, emit, ret.
  destruct (update_ongoing_file_cb tr); [reflexivity|].
  destruct st; simpl. now rewrite app_nil_r.
Qed.

Lemma translate_aux_skip (to_dir src : string) (rest : list string) :
  String.eqb src (main_source (source tr)) = true ->
  translate_aux tr to_dir (src :: rest) = translate_aux tr to_dir rest.
Proof. intros H. simpl. now rewrite H. Qed.

Lemma translate_aux_cons (to_dir src : string) (rest : list string)
      (nodes : list LatexNode) (st : State) :
  String.eqb src (main_source (source tr)) = false ->
  source_nodes tr src = Ok nodes ->
  translate_aux tr to_dir (src :: rest) st
  = match translate tr (get_text_from_nodes (source tr) (Some nodes))
                    (announced tr src st) with
    | (Ok out, st1) =>
        translate_aux tr to_dir rest
                      (written to_dir (translated_name src) out st1)
    | (Raise e, st1) => (Raise e, st1)
    end.
Proof.
  intros Hm Hn. simpl. rewrite Hm. unfold bind at 1.
  rewrite when_announce. unfold bind at 1, lift. rewrite Hn.
  unfold bind at 1.
  now destruct (translate tr _ (announced tr src st)) as [[out|e] st1].
Qed.

(** Every key of the dict has its entry. *)
Lemma source_nodes_key (key : string) :
  In key (map fst (sources (source tr))) ->
  exists nodes, source_nodes tr key = Ok nodes.
Proof.
  unfold source_nodes. induction (sources (source tr)) as [|[k v] l IH].
  - intros [].
  - intros [H|H]; simpl in *.
    + subst. rewrite String.eqb_refl. now exists v.
    + destruct (String.eqb k key); [now exists v | now apply IH].
Qed.

Lemma activities_announced (src : string) (st : State) :
  exists evs,
    trace (announced tr src st) = trace st ++ evs /\
    activities evs = announce tr src /\ files_written evs = [].
Proof.
  unfold announced, announce. simpl.
  destruct (update_ongoing_file_cb tr); eexists; now repeat split.
Qed.

Lemma aborted_in_cons (body : string * string)
      (bodies : list (string * string)) (acts : list Activity) :
  aborted_in tr bodies acts ->
  aborted_in tr (body :: bodies) (body_schedule tr body ++ acts).
Proof.
  intros (done & b & rest & part & more & Hb & Ha & Hs).
  exists (body :: done), b, rest, part, more. subst. simpl.
  rewrite <- !app_assoc. now repeat split.
Qed.

(** One body: announced, translated, written, and then the run goes on
    with [continue]. *)
Lemma body_step (to_dir : string) (body : string * string) (text : string)
      (continue : M unit) (st : State) (later : list (string * string)) :
  (forall st1, exists evs,
      trace (snd (continue st1)) = trace st1 ++ evs /\
      match fst (continue st1) with
      | Ok _ => activities evs = flat_map (body_schedule tr) later
      | Raise _ => aborted_in tr later (activities evs)
      end) ->
  let result :=
    match translate tr (snd body) (announced tr (fst body) st) with
    | (Ok out, st1) =>
        continue (written to_dir (translated_name (fst body)) text st1)
    | (Raise e, st1) => (Raise e, st1)
    end in
  exists evs,
    trace (snd result) = trace st ++ evs /\
    match fst result with
    | Ok _ => activities evs = flat_map (body_schedule tr) (body :: later)
    | Raise _ => aborted_in tr (body :: later) (activities evs)
    end.
Proof.
  intros Hk result. subst result.
  destruct (activities_announced (fst body) st) as (ev0 & Ht0 & Ha0 & _).
  destruct (translate_trace (snd body) (announced tr (fst body) st))
    as (ev1 & Ht1 & _ & Ha1).
  destruct (translate tr (snd body) (announced tr (fst body) st))
    as [[out|e] st1]; cbn [fst snd] in Ht1, Ha1.
  - destruct (Hk (written to_dir (translated_name (fst body)) text st1))
      as (ev2 & Ht2 & Ha2).
    exists (ev0 ++ ev1 ++ FileWrite to_dir (translated_name (fst body)) text
               :: ev2).
    split.
    + cbn [fst snd]. rewrite Ht2. unfold written at 1. cbn [trace].
      rewrite Ht1, Ht0, <- !app_assoc. reflexivity.
    + assert (E : activities
                    (ev0 ++ ev1 ++
                       FileWrite to_dir (translated_name (fst body)) text
                       :: ev2)
                  = body_schedule tr body ++ activities ev2).
      { rewrite !activities_app, Ha0, Ha1. unfold body_schedule.
        rewrite <- !app_assoc. reflexivity. }
      rewrite E.
      destruct (fst (continue _)).
      * simpl. now rewrite Ha2.
      * now apply aborted_in_cons.
  - exists (ev0 ++ ev1). cbn [fst snd]. split.
    + rewrite Ht1, Ht0, <- app_assoc. reflexivity.
    + destruct Ha1 as (more & Hm).
      exists [], body, later, (activities ev1), more.
      rewrite activities_app, Ha0. now repeat split.
Qed.

(** The course of the loop over the auxiliary sources. *)
Lemma translate_aux_trace (to_dir : string) (keys : list string) :
  (forall k, In k keys -> In k (map fst (sources (source tr)))) ->
  forall st, exists evs,
    trace (snd (translate_aux tr to_dir keys st)) = trace st ++ evs /\
    match fst (translate_aux tr to_dir keys st) with
    | Ok _ => activities evs = flat_map (body_schedule tr) (aux_bodies tr keys)
    | Raise _ => aborted_in tr (aux_bodies tr keys) (activities evs)
    end.
Proof.
  induction keys as [|src rest IH]; intros Hk st.
  - exists []. simpl. now rewrite app_nil_r.
  - assert (Hrest : forall k, In k rest ->
                              In k (map fst (sources (source tr))))
      by (intros k H; apply Hk; now right).
    destruct (String.eqb src (main_source (source tr))) eqn:Hm.
    + rewrite (translate_aux_skip to_dir src rest Hm).
      simpl aux_bodies. rewrite Hm. now apply IH.
    + destruct (source_nodes_key src (Hk src (or_introl eq_refl)))
        as (nodes & Hn).
      rewrite (translate_aux_cons to_dir src rest nodes st Hm Hn).
      simpl aux_bodies. rewrite Hm, Hn.
      destruct (translate tr _ (announced tr src st))
        as [[out|e] st1] eqn:Ht.
      * pose proof (body_step to_dir
          (src, get_text_from_nodes (source tr) (Some nodes)) out
          (translate_aux tr to_dir rest) st (aux_bodies tr rest)
          (IH Hrest)) as H.
        simpl in H. now rewrite Ht in H.
      * pose proof (body_step to_dir
          (src, get_text_from_nodes (source tr) (Some nodes)) ""%string
          (translate_aux tr to_dir rest) st (aux_bodies tr rest)
          (IH Hrest)) as H.
        simpl in H. now rewrite Ht in H.
Qed.

(** ** [translate_project] *)

Lemma entry_state_eq (st : State) :
  entry_state tr st
  = announced tr (main_source (source tr))
              (mkState (mkRunState 0 []) (n_requests st) (trace st)).
Proof. reflexivity. Qed.

Lemma translate_project_eq (to_dir : string) (nodes : list LatexNode)
      (st : State) :
  source_nodes tr (main_source (source tr)) = Ok nodes ->
  translate_project tr to_dir st
  = match translate tr (snd (main_body tr nodes)) (entry_state tr st) with
    | (Ok out, st1) =>
        translate_aux tr to_dir (map fst (sources (source tr)))
          (written to_dir (translated_name (main_source (source tr)))
                   (main_full_text tr nodes out) st1)
    | (Raise e, st1) => (Raise e, st1)
    end.
Proof.
  intros Hn. unfold translate_project.
  unfold bind at 1, modify_run at 1. unfold bind at 1, modify_run at 1.
  unfold bind at 1. rewrite when_announce.
  unfold bind at 1, lift. rewrite Hn.
  unfold main_body, main_full_text.
  destruct (scan_nodes tr nodes) as [[document_nodes before] after].
  unfold bind at 1. simpl run. simpl n_requests. simpl trace.
  rewrite entry_state_eq. simpl fst. simpl snd.
  now destruct (translate tr _ _) as [[out|e] st1].
Qed.

Lemma translate_project_missing (to_dir : string) (e : Exception)
      (st : State) :
  source_nodes tr (main_source (source tr)) = Raise e ->
  translate_project tr to_dir st = (Raise e, entry_state tr st).
Proof.
  intros Hn. unfold translate_project.
  unfold bind at 1, modify_run at 1. unfold bind at 1, modify_run at 1.
  unfold bind at 1. rewrite when_announce.
  unfold bind at 1, lift. rewrite Hn. reflexivity.
Qed.

(** The course of a project run. *)
Lemma translate_project_trace (to_dir : string) (nodes : list LatexNode)
      (st : State) :
  source_nodes tr (main_source (source tr)) = Ok nodes ->
  exists evs,
    trace (snd (translate_project tr to_dir st)) = trace st ++ evs /\
    match fst (translate_project tr to_dir st) with
    | Ok _ => activities evs = project_schedule tr nodes
    | Raise _ => aborted_in tr (project_bodies tr nodes) (activities evs)
    end.
Proof.
  intros Hn. rewrite (translate_project_eq to_dir nodes st Hn).
  rewrite entry_state_eq.
  destruct (translate tr (snd (main_body tr nodes)) _)
    as [[out|e] st1] eqn:Ht.
  - pose proof (body_step to_dir (main_body tr nodes)
      (main_full_text tr nodes out)
      (translate_aux tr to_dir (map fst (sources (source tr))))
      (mkState (mkRunState 0 []) (n_requests st) (trace st))
      (aux_bodies tr (map fst (sources (source tr))))
      (translate_aux_trace to_dir _ (fun k H => H))) as H.
    cbv zeta in H. change (fst (main_body tr nodes))
      with (main_source (source tr)) in H.
    rewrite Ht in H. exact H.
  - pose proof (body_step to_dir (main_body tr nodes) ""%string
      (translate_aux tr to_dir (map fst (sources (source tr))))
      (mkState (mkRunState 0 []) (n_requests st) (trace st))
      (aux_bodies tr (map fst (sources (source tr))))
      (translate_aux_trace to_dir _ (fun k H => H))) as H.
    cbv zeta in H. change (fst (main_body tr nodes))
      with (main_source (source tr)) in H.
    rewrite Ht in H. exact H.
Qed.

(** ** The run state along the loop of [translate] *)

(** When the loop returns, every chunk has had its request, its callback
    and its response recorded, in this order: the callback of the [k]-th
    chunk sees the counter at [k+1] and the responses of the chunks
    before it. *)
Lemma translate_loop_callbacks (chunks : list string) :
  forall (acc out : list string) (st st' : State),
    complete_chunk_cb tr = true ->
    translate_loop tr chunks acc st = (Ok out, st') ->
    exists responses evs,
      List.length responses = List.length chunks /\
      run st' = mkRunState
                  (translated_chunks (run st)
                   + Z.of_nat (List.length chunks))
                  (translation_responses (run st) ++ responses) /\
      trace st' = trace st ++ evs /\
      chunk_callbacks evs
      = map (fun k => mkRunState
                        (translated_chunks (run st) + Z.of_nat k + 1)
                        (translation_responses (run st)
                           ++ firstn k responses))
            (seq 0 (List.length chunks)).
Proof.
  induction chunks as [|chunk rest IH]; intros acc out st st' Hcb H.
  - inversion H; subst. exists [], []. simpl.
    rewrite Z.add_0_r, !app_nil_r. now destruct (run st').
  - rewrite translate_loop_cons in H.
    destruct (async_chat_completion (llm tr) (n_requests st)
                (create_messages (template tr) chunk)) as [r|e] eqn:Hr.
    2:{ rewrite (translate_chunk_raise _ _ _ Hr) in H. discriminate. }
    rewrite (translate_chunk_ok _ _ _ Hr) in H.
    destruct (first_content r) as [txt|e]; [|discriminate].
    apply IH in H; [|assumption].
    destruct H as (responses & evs & Hlen & Hrun & Htrace & Hcalls).
    cbn [run trace translated_chunks translation_responses] in *.
    exists (r :: responses), (chunk_events tr st chunk ++ evs).
    repeat split.
    + simpl. now rewrite Hlen.
    + rewrite Hrun. f_equal.
      * cbn [List.length]. lia.
      * now rewrite <- app_assoc.
    + now rewrite Htrace, app_assoc.
    + rewrite chunk_callbacks_app, Hcalls. unfold chunk_events.
      rewrite Hcb. cbn [chunk_callbacks flat_map app].
      cbn [List.length seq map firstn]. rewrite app_nil_r, Z.add_0_r.
      f_equal. rewrite <- seq_shift, map_map.
      apply map_ext. intros k. f_equal.
      * lia.
      * cbn [firstn]. now rewrite <- app_assoc.
Qed.

(** The loop stops at the first request that fails, with its error, and
    submits nothing after it. *)
Lemma translate_loop_fail (chunk : string) (rest : list string)
      (e : Exception) (done : list string) :
  forall (acc : list string) (st : State),
    (forall j c, nth_error done j = Some c ->
       exists r m ms,
         async_chat_completion (llm tr) (n_requests st + j)
                               (create_messages (template tr) c) = Ok r /\
         choices r = m :: ms) ->
    async_chat_completion (llm tr) (n_requests st + List.length done)
                          (create_messages (template tr) chunk) = Raise e ->
    fst (translate_loop tr (done ++ chunk :: rest) acc st) = Raise e /\
    n_requests (snd (translate_loop tr (done ++ chunk :: rest) acc st))
    = n_requests st + List.length done + 1.
Proof.
  induction done as [|c done IH]; intros acc st Hok Hfail.
  - simpl app. rewrite translate_loop_cons.
    simpl in Hfail. rewrite Nat.add_0_r in Hfail.
    rewrite (translate_chunk_raise _ _ _ Hfail). simpl. split; [easy|lia].
  - simpl app. rewrite translate_loop_cons.
    destruct (Hok 0 c eq_refl) as (r & m & ms & Hr & Hm).
    rewrite Nat.add_0_r in Hr.
    rewrite (translate_chunk_ok _ _ _ Hr).
    unfold first_content. rewrite Hm.
    match goal with
    | |- context [translate_loop tr _ ?a ?s] =>
        destruct (IH a s) as [H1 H2]
    end.
    + intros j c' Hj. cbn [n_requests].
      replace (S (n_requests st) + j) with (n_requests st + S j) by lia.
      now apply Hok.
    + cbn [n_requests].
      replace (S (n_requests st) + List.length done)
        with (n_requests st + List.length (c :: done)) by (simpl; lia).
      exact Hfail.
    + split; [exact H1|]. rewrite H2. simpl. lia.
Qed.

(** ** The loop over the nodes of the main source *)

Lemma verbatim_text_cons (node : LatexNode) (nodes : list LatexNode) :
  verbatim_text (node :: nodes)
  = (latex_verbatim node ++ verbatim_text nodes)%string.
Proof. reflexivity. Qed.

Lemma scan_node_before (node : LatexNode) (before after : string) :
  find_env_node (source tr) node "document" = None ->
  scan_node tr (None, before, after) node
  = (None, (before ++ latex_verbatim node)%string, after).
Proof. intros H. unfold scan_node. now rewrite H. Qed.

Lemma scan_node_after (node : LatexNode) (inner : list LatexNode)
      (before after : string) :
  find_env_node (source tr) node "document" = None ->
  scan_node tr (Some inner, before, after) node
  = (Some inner, before, (after ++ latex_verbatim node)%string).
Proof. intros H. unfold scan_node. now rewrite H. Qed.

Lemma scan_node_found (node : LatexNode) (env : LatexEnvironmentNode)
      (vars : option (list LatexNode) * string * string) :
  find_env_node (source tr) node "document" = Some env ->
  scan_node tr vars node = (Some (nodelist env), snd (fst vars), snd vars).
Proof.
  intros H. unfold scan_node. destruct vars as [[d b] a]. now rewrite H.
Qed.

Lemma scan_before (nodes : list LatexNode) :
  (forall n, In n nodes ->
             find_env_node (source tr) n "document" = None) ->
  forall before after,
    fold_left (scan_node tr) nodes (None, before, after)
    = (None, (before ++ verbatim_text nodes)%string, after).
Proof.
  induction nodes as [|node nodes IH]; intros Hnone before after.
  - simpl. now rewrite StrFacts.append_nil_r.
  - cbn [fold_left].
    rewrite (scan_node_before _ _ _ (Hnone node (or_introl eq_refl))).
    rewrite IH by (intros n H; apply Hnone; now right).
    now rewrite verbatim_text_cons, StrFacts.append_assoc.
Qed.

Lemma scan_after (nodes : list LatexNode) :
  (forall n, In n nodes ->
             find_env_node (source tr) n "document" = None) ->
  forall inner before after,
    fold_left (scan_node tr) nodes (Some inner, before, after)
    = (Some inner, before, (after ++ verbatim_text nodes)%string).
Proof.
  induction nodes as [|node nodes IH]; intros Hnone inner before after.
  - simpl. now rewrite StrFacts.append_nil_r.
  - cbn [fold_left].
    rewrite (scan_node_after _ _ _ _ (Hnone node (or_introl eq_refl))).
    rewrite IH by (intros n H; apply Hnone; now right).
    now rewrite verbatim_text_cons, StrFacts.append_assoc.
Qed.

(** The loop finds the inner nodes of the environment and the verbatim
    text on both sides of it. *)
Lemma scan_nodes_document (pre post : list LatexNode) (doc : LatexNode)
      (env : LatexEnvironmentNode) :
  find_env_node (source tr) doc "document" = Some env ->
  (forall n, In n pre \/ In n post ->
             find_env_node (source tr) n "document" = None) ->
  scan_nodes tr (pre ++ doc :: post)
  = (Some (nodelist env), verbatim_text pre,
     (end_marker ++ verbatim_text post)%string).
Proof.
  intros Hdoc Hnone. unfold scan_nodes.
  rewrite fold_left_app, scan_before by (intros n H; apply Hnone; now left).
  cbn [fold_left]. rewrite (scan_node_found _ _ _ Hdoc). cbn [fst snd].
  now rewrite scan_after by (intros n H; apply Hnone; now right).
Qed.

(** ** [estimate_tokens_cost] *)

Lemma estimate_loop_sum (chunks : list string) :
  forall (result_tokens : Z) (st : State),
    estimate_loop tr chunks result_tokens st
    = (Ok (result_tokens
           + fold_right Z.add 0
               (map (fun chunk =>
                       count_tokens_messages (llm tr)
                         (create_messages (template tr) chunk)) chunks))%Z,
       st).
Proof.
  induction chunks as [|chunk rest IH]; intros result_tokens st.
  - simpl. now rewrite Z.add_0_r.
  - simpl. rewrite IH. do 2 f_equal. lia.
Qed.

(** ** Files and activities *)

Lemma written_names_files (evs : list Event) :
  map (fun f => snd (fst f)) (files_written evs)
  = written_names (activities evs).
Proof.
  induction evs as [|e evs IH]; [reflexivity|].
  destruct e; simpl; now rewrite ?IH.
Qed.

Lemma written_names_submits (part more : list Activity)
      (chunks : list string) :
  submits_of tr chunks = part ++ more -> written_names part = [].
Proof.
  revert part. induction chunks as [|c chunks IH]; intros part H.
  - symmetry in H. apply app_eq_nil in H. destruct H. now subst.
  - destruct part as [|a part]; [reflexivity|].
    simpl in H. inversion H; subst. simpl. now apply IH.
Qed.

Lemma written_names_announce (src : string) :
  written_names (announce tr src) = [].
Proof. unfold announce. now destruct (update_ongoing_file_cb tr). Qed.

Lemma written_names_schedule (bodies : list (string * string)) :
  written_names (flat_map (body_schedule tr) bodies)
  = map translated_name (map fst bodies).
Proof.
  induction bodies as [|b bodies IH]; [reflexivity|].
  simpl. unfold body_schedule at 1.
  rewrite !written_names_app, written_names_announce, IH.
  rewrite (written_names_submits (submits tr (snd b)) []
             (split_text (splitter tr) (snd b)))
    by (now rewrite app_nil_r).
  reflexivity.
Qed.

(** The names of the bodies after the main one: the keys other than the
    main source, in key order. *)
Lemma aux_bodies_names (keys : list string) :
  (forall k, In k keys -> In k (map fst (sources (source tr)))) ->
  map fst (aux_bodies tr keys)
  = filter (fun k => negb (String.eqb k (main_source (source tr)))) keys.
Proof.
  induction keys as [|k keys IH]; intros Hk; [reflexivity|].
  simpl. destruct (String.eqb k (main_source (source tr))); simpl.
  - apply IH. intros k' H. apply Hk. now right.
  - destruct (source_nodes_key k (Hk k (or_introl eq_refl))) as (n & ->).
    simpl. f_equal. apply IH. intros k' H. apply Hk. now right.
Qed.

(** ** The events of [translate], turn by turn *)

Lemma flat_map_shift {A : Type} (f : nat -> list A) (n : nat) :
  flat_map f (seq 1 n) = flat_map (fun k => f (S k)) (seq 0 n).
Proof.
  rewrite <- seq_shift. induction (seq 0 n) as [|k l IH]; [reflexivity|].
  simpl. now rewrite IH.
Qed.

(** With a chunk-complete callback, the loop shows, for every chunk whose
    request is answered, the request and then the callback, which sees the
    counter incremented for this chunk and the responses of the chunks
    before it; a request that fails comes last and has no callback. *)
Lemma translate_loop_turns (chunks : list string) :
  complete_chunk_cb tr = true ->
  forall (acc : list string) (st : State),
  exists responses tail,
    List.length responses <= List.length chunks /\
    (forall k r,
        nth_error responses k = Some r ->
        async_chat_completion (llm tr) (n_requests st + k)
          (create_messages (template tr) (nth k chunks ""%string)) = Ok r) /\
    run (snd (translate_loop tr chunks acc st))
    = mkRunState
        (translated_chunks (run st) + Z.of_nat (List.length responses))
        (translation_responses (run st) ++ responses) /\
    trace (snd (translate_loop tr chunks acc st))
    = trace st
      ++ flat_map
           (fun k =>
              [Request (create_messages (template tr)
                                        (nth k chunks ""%string));
               ChunkComplete
                 (mkRunState
                    (translated_chunks (run st) + Z.of_nat k + 1)
                    (translation_responses (run st)
                       ++ firstn k responses))])
           (seq 0 (List.length responses))
      ++ tail /\
    (tail = [] \/
     exists e,
       tail = [Request (create_messages (template tr)
                          (nth (List.length responses) chunks ""%string))] /\
       async_chat_completion (llm tr)
         (n_requests st + List.length responses)
         (create_messages (template tr)
            (nth (List.length responses) chunks ""%string)) = Raise e /\
       List.length responses < List.length chunks) /\
    (forall out,
        fst (translate_loop tr chunks acc st) = Ok out ->
        List.length responses = List.length chunks /\ tail = []).
Proof.
  intros Hcb. induction chunks as [|chunk rest IH]; intros acc st.
  - exists [], []. cbn [translate_loop ret fst snd List.length seq flat_map].
    rewrite Z.add_0_r, !app_nil_r. repeat split; auto.
    + intros [|k] r H; discriminate H.
    + now destruct (run st).
  - rewrite translate_loop_cons.
    destruct (async_chat_completion (llm tr) (n_requests st)
                (create_messages (template tr) chunk)) as [r|e] eqn:Hr.
    2:{ rewrite (translate_chunk_raise _ _ _ Hr).
        exists [], [Request (create_messages (template tr) chunk)].
        cbn [fst snd List.length seq flat_map app run trace nth].
        rewrite Z.add_0_r, app_nil_r, Nat.add_0_r.
        split; [lia|]. split; [intros [|k] r H; discriminate H|].
        split; [now destruct (run st)|]. split; [reflexivity|].
        split; [|discriminate].
        right. exists e. repeat split; auto. simpl. lia. }
    rewrite (translate_chunk_ok _ _ _ Hr). unfold chunk_events. rewrite Hcb.
    destruct (first_content r) as [txt|e] eqn:Hc.
    + match goal with
      | |- context [translate_loop tr _ ?a ?s] =>
          remember s as st1 eqn:Hst1;
          assert (Hn1 : n_requests st1 = S (n_requests st))
            by (now rewrite Hst1);
          assert (Hr1 : run st1
                        = mkRunState (translated_chunks (run st) + 1)
                                     (translation_responses (run st) ++ [r]))
            by (now rewrite Hst1);
          assert (Ht1 : trace st1
                        = trace st
                          ++ [Request (create_messages (template tr) chunk);
                              ChunkComplete
                                (mkRunState
                                   (translated_chunks (run st) + 1)
                                   (translation_responses (run st)))])
            by (now rewrite Hst1);
          clear Hst1;
          destruct (IH a st1)
            as (responses & tail & H1 & H2 & H3 & H4 & H5 & H6)
      end.
      exists (r :: responses), tail.
      cbn [List.length]. split; [lia|]. split; [|split; [|split; [|split]]].
      * intros [|k] r' Hk.
        -- inversion Hk; subst r'. now rewrite Nat.add_0_r.
        -- cbn [nth]. rewrite <- (H2 k r' Hk), Hn1. f_equal. lia.
      * rewrite H3, Hr1. cbn [translated_chunks translation_responses].
        f_equal; [lia | now rewrite <- app_assoc].
      * rewrite H4, Ht1, Hr1.
        cbn [translated_chunks translation_responses seq flat_map].
        rewrite flat_map_shift, <- !app_assoc. cbn [app nth firstn].
        rewrite Z.add_0_r, app_nil_r. do 3 f_equal.
        apply (f_equal (fun l => l ++ tail)).
        apply flat_map_ext. intros k.
        apply f_equal. apply (f_equal (fun e => [e])). apply f_equal.
        apply f_equal2; [lia | now rewrite <- app_assoc].
      * destruct H5 as [->|(e & -> & He & Hlt)]; [now left|].
        right. exists e. cbn [nth]. repeat split; [|lia].
        rewrite <- He, Hn1. f_equal. lia.
      * intros out Hout. destruct (H6 out Hout) as [-> ->]. now split.
    + exists [r], [].
      cbn [fst snd List.length seq flat_map run trace app nth firstn].
      rewrite !app_nil_r, Z.add_0_r. split; [lia|].
      split; [|split; [|split; [|split]]]; auto.
      * intros [|[|k]] r' Hk; try discriminate Hk.
        inversion Hk; subst r'. now rewrite Nat.add_0_r.
      * discriminate.
Qed.

End MethodFacts.




(* ================================================================== *)
(** * The properties of the specification *)
(* ================================================================== *)

(** ** The response extractor *)

(** C2 (fence round trip): for a payload without backticks, the text
    extracted from the response ["```" ++ payload ++ "```"] is the
    payload. *)
Theorem fence_round_trip (payload : string) :
  Str.no_backtick payload = true ->
  Extractor.extract ("```" ++ payload ++ "```") = payload.
Proof.
  intros H. destruct payload as [|c q]; [reflexivity|].
  simpl in H. apply andb_prop in H. destruct H as [Hc Hq].
  unfold Extractor.extract.
  pose proof (ExtractorFacts.re_search_first "" q "" c eq_refl
                (StrFacts.no_backtick_two q Hq)) as Hs.
  rewrite StrFacts.append_nil_r in Hs.
  change ("" ++ "```" ++ String c q ++ "```")%string
    with ("```" ++ String c q ++ "```")%string in Hs.
  rewrite Hs. apply StrFacts.replace_fence_no_backtick.
  simpl. now rewrite Hc, Hq.
Qed.

Lemma fence_round_trip_witness :
  Extractor.extract ("```" ++ "Bonjour le monde" ++ "```")
  = "Bonjour le monde"%string.
Proof. apply (fence_round_trip "Bonjour le monde"). reflexivity. Defined.

(** C6 (missing fence): when the search finds no fenced region in the
    response text, the extracted text is the response text without its
    fences: the response text is a sequence of pieces with a fence between
    them, and the extracted text is these pieces put together, nothing
    added and nothing else taken out.  It is what [replace] returns, it
    holds no fence any more, and the turn of the loop that receives the
    response returns this text, not an error. *)
Theorem missing_fence_fallback (raw : string) :
  Extractor.re_search raw = None ->
  (exists first more,
      raw = Str.fenced first more /\
      Extractor.extract raw = (first ++ Str.join more)%string) /\
  Extractor.extract raw = Str.replace_fence raw /\
  Str.occurs_fence (Extractor.extract raw) = false /\
  forall tr chunk st r m ms,
    async_chat_completion (llm tr) (n_requests st)
                          (create_messages (template tr) chunk) = Ok r ->
    choices r = m :: ms ->
    content m = raw ->
    fst (translate_chunk tr chunk st) = Ok (Str.replace_fence raw).
Proof.
  intros H. unfold Extractor.extract. rewrite H.
  split; [apply ExtractorFacts.replace_fence_pieces|].
  split; [reflexivity|]. split; [apply StrFacts.replace_fence_free|].
  intros tr chunk st r m ms Hr Hm Hc.
  rewrite (translate_chunk_ok tr st chunk r Hr).
  unfold first_content. rewrite Hm, Hc. simpl.
  unfold Extractor.extract. now rewrite H.
Qed.

Lemma missing_fence_fallback_witness :
  (exists first more,
      "Bon```jour ``"%string = Str.fenced first more /\
      "Bonjour ``"%string = (first ++ Str.join more)%string) /\
  Extractor.extract "Bon```jour ``" = "Bonjour ``"%string /\
  Str.occurs_fence "Bonjour ``" = false /\
  forall tr chunk st r m ms,
    async_chat_completion (llm tr) (n_requests st)
                          (create_messages (template tr) chunk) = Ok r ->
    choices r = m :: ms ->
    content m = "Bon```jour ``"%string ->
    fst (translate_chunk tr chunk st) = Ok "Bonjour ``"%string.
Proof. exact (missing_fence_fallback "Bon```jour ``" eq_refl). Defined.

(** C10 (several fenced regions): in a response text with a first fenced
    region and a later one, the extracted text is the content of the first
    region with the fences in it replaced by nothing, whatever the later
    region and the text around it are.  The first region is the leftmost
    and the shortest: no fence starts before its opening fence, its content
    [String c q] has one character at least, and no fence starts in [q]
    before its closing fence. *)
Theorem first_fenced_region_only
        (pre q mid later post : string) (c : ascii) :
  Str.occurs_fence (pre ++ "``") = false ->
  Str.occurs_fence (q ++ "``") = false ->
  Extractor.extract
    (pre ++ "```" ++ String c q ++ "```"
         ++ mid ++ "```" ++ later ++ "```" ++ post)
  = Str.replace_fence (String c q).
Proof.
  intros Hpre Hq. unfold Extractor.extract.
  now rewrite (ExtractorFacts.re_search_first pre q _ c Hpre Hq).
Qed.

Lemma first_fenced_region_only_witness :
  Extractor.extract
    ("Voici : " ++ "```" ++ String "`" "``un" ++ "```"
       ++ " puis " ++ "```" ++ "deux" ++ "```" ++ " fin")
  = "un"%string.
Proof.
  apply (first_fenced_region_only "Voici : " "``un" " puis " "deux" " fin"
                                  "`"%char); reflexivity.
Defined.

(** ** The translation of one body *)

(** C4, as the code has it: in a call of [translate], with a
    chunk-complete callback registered, every chunk whose request the
    client answers has its callback exactly once, right after its request
    was answered and the counter incremented, and before its response is
    appended: the events of the call are, chunk by chunk, the request and
    then the callback, which sees [translated_chunks] incremented [k+1]
    times at the [k]-th chunk (from 0) and only the responses of the [k]
    chunks before it.  A request that fails is the last event and has no
    callback; when the call returns, every chunk had its turn. *)
Theorem chunk_callback_before_record
        (tr : LatexProjectTranslator) (text : string) (st : State) :
  complete_chunk_cb tr = true ->
  let chunks := split_text (splitter tr) text in
  let st' := snd (translate tr text st) in
  exists responses tail,
    List.length responses <= List.length chunks /\
    (forall k r,
        nth_error responses k = Some r ->
        async_chat_completion (llm tr) (n_requests st + k)
          (create_messages (template tr) (nth k chunks ""%string)) = Ok r) /\
    run st'
    = mkRunState
        (translated_chunks (run st) + Z.of_nat (List.length responses))
        (translation_responses (run st) ++ responses) /\
    trace st'
    = trace st
      ++ flat_map
           (fun k =>
              [Request (create_messages (template tr)
                                        (nth k chunks ""%string));
               ChunkComplete
                 (mkRunState
                    (translated_chunks (run st) + Z.of_nat k + 1)
                    (translation_responses (run st)
                       ++ firstn k responses))])
           (seq 0 (List.length responses))
      ++ tail /\
    (tail = [] \/
     exists e,
       tail = [Request (create_messages (template tr)
                          (nth (List.length responses) chunks ""%string))] /\
       async_chat_completion (llm tr)
         (n_requests st + List.length responses)
         (create_messages (template tr)
            (nth (List.length responses) chunks ""%string)) = Raise e /\
       List.length responses < List.length chunks) /\
    (forall out,
        fst (translate tr text st) = Ok out ->
        List.length responses = List.length chunks /\ tail = []).
Proof.
  intros Hcb chunks st'. subst chunks st'. rewrite translate_eq.
  destruct (translate_loop_turns tr (split_text (splitter tr) text) Hcb [] st)
    as (responses & tail & H1 & H2 & H3 & H4 & H5 & H6).
  exists responses, tail.
  destruct (translate_loop tr (split_text (splitter tr) text) [] st)
    as [[translated|e] st1]; cbn [fst snd] in *;
    (split; [exact H1|]); (split; [exact H2|]); (split; [exact H3|]);
    (split; [exact H4|]); (split; [exact H5|]).
  - intros out _. exact (H6 translated eq_refl).
  - discriminate.
Qed.

Lemma chunk_callback_before_record_witness :
  let tr := Demo.translator Demo.echo_service in
  let m1 := create_messages Demo.template "Hello wo" in
  let m2 := create_messages Demo.template "rld" in
  exists responses tail,
    List.length responses <= 2 /\
    (forall k r,
        nth_error responses k = Some r ->
        async_chat_completion (llm tr) (0 + k)
          (create_messages (template tr)
             (nth k ["Hello wo"; "rld"]%string ""%string)) = Ok r) /\
    mkRunState 2 [Demo.echo m1; Demo.echo m2]
    = mkRunState (0 + Z.of_nat (List.length responses)) ([] ++ responses) /\
    [Request m1; ChunkComplete (mkRunState 1 []);
     Request m2; ChunkComplete (mkRunState 2 [Demo.echo m1])]
    = []
      ++ flat_map
           (fun k =>
              [Request (create_messages (template tr)
                          (nth k ["Hello wo"; "rld"]%string ""%string));
               ChunkComplete
                 (mkRunState (0 + Z.of_nat k + 1)
                             ([] ++ firstn k responses))])
           (seq 0 (List.length responses))
      ++ tail /\
    (tail = [] \/
     exists e,
       tail = [Request (create_messages (template tr)
                          (nth (List.length responses)
                               ["Hello wo"; "rld"]%string ""%string))] /\
       async_chat_completion (llm tr) (0 + List.length responses)
         (create_messages (template tr)
            (nth (List.length responses)
                 ["Hello wo"; "rld"]%string ""%string)) = Raise e /\
       List.length responses < 2) /\
    (forall out,
        fst (translate tr "Hello world" Demo.fresh) = Ok out ->
        List.length responses = 2 /\ tail = []).
Proof.
  intros tr m1 m2.
  exact (chunk_callback_before_record tr "Hello world" Demo.fresh eq_refl).
Defined.

(** C4, as it is stated, fails: the callback of the only chunk of
    ["Hello"] runs when no response is recorded yet. *)
Lemma chunk_callback_after_record_fails :
  ~ notified_after_record
      (run Demo.fresh)
      (trace (snd (translate (Demo.translator Demo.echo_service)
                             "Hello" Demo.fresh))).
Proof.
  intros H. destruct (H 0 (mkRunState 1 []) eq_refl) as [_ Hlen].
  discriminate Hlen.
Qed.

(** C7 (failure): when the completion client fails on a chunk of a body,
    [translate] returns that error and no text, and submits no later
    chunk; when [translate_project] fails, the files written in the run
    are those of the bodies before the one in translation, each written
    after all the requests of its body, and no file is written for the
    body in translation or for a later one. *)
Theorem failure_leaves_no_partial_output (tr : LatexProjectTranslator) :
  (forall text st done chunk rest e,
     split_text (splitter tr) text = done ++ chunk :: rest ->
     (forall j c, nth_error done j = Some c ->
        exists r m ms,
          async_chat_completion (llm tr) (n_requests st + j)
                                (create_messages (template tr) c) = Ok r /\
          choices r = m :: ms) ->
     async_chat_completion (llm tr) (n_requests st + List.length done)
                           (create_messages (template tr) chunk) = Raise e ->
     fst (translate tr text st) = Raise e /\
     n_requests (snd (translate tr text st))
     = n_requests st + List.length done + 1 /\
     files_written (trace (snd (translate tr text st)))
     = files_written (trace st)) /\
  (forall to_dir nodes st e,
     source_nodes tr (main_source (source tr)) = Ok nodes ->
     fst (translate_project tr to_dir st) = Raise e ->
     exists evs done body rest part more,
       trace (snd (translate_project tr to_dir st)) = trace st ++ evs /\
       project_bodies tr nodes = done ++ body :: rest /\
       map (fun f => snd (fst f)) (files_written evs)
       = map translated_name (map fst done) /\
       activities evs
       = flat_map (body_schedule tr) done ++ announce tr (fst body) ++ part /\
       submits tr (snd body) = part ++ more).
Proof.
  split.
  - intros text st done chunk rest e Hsplit Hok Hfail.
    destruct (translate_loop_fail tr chunk rest e done [] st Hok Hfail)
      as [H1 H2].
    destruct (translate_trace tr text st) as (evs & Ht & Hf & _).
    rewrite translate_eq in *. rewrite Hsplit in *.
    destruct (translate_loop tr (done ++ chunk :: rest) [] st)
      as [[translated|e'] st1]; simpl in *; [discriminate|].
    inversion H1; subst e'. repeat split; auto.
    now rewrite Ht, files_written_app, Hf, app_nil_r.
  - intros to_dir nodes st e Hn Hfail.
    destruct (translate_project_trace tr to_dir nodes st Hn)
      as (evs & Ht & Ha).
    rewrite Hfail in Ha.
    destruct Ha as (done & body & rest & part & more & Hb & Hacts & Hsub).
    exists evs, done, body, rest, part, more.
    repeat split; auto.
    rewrite written_names_files, Hacts, !written_names_app.
    rewrite written_names_schedule, written_names_announce.
    rewrite (written_names_submits tr part more _ Hsub).
    now rewrite !app_nil_r.
Qed.

Lemma failure_leaves_no_partial_output_witness :
  let tr := Demo.translator (Demo.failing_service 3) in
  let st := mkState (mkRunState 0 []) 2 [] in
  (fst (translate tr "Hello world" st)
   = Raise (CompletionError "unavailable") /\
   n_requests (snd (translate tr "Hello world" st)) = 4 /\
   files_written (trace (snd (translate tr "Hello world" st))) = []) /\
  exists evs done body rest part more,
    trace (snd (translate_project tr "out" Demo.fresh)) = evs /\
    project_bodies tr Demo.main_nodes = done ++ body :: rest /\
    map (fun f => snd (fst f)) (files_written evs)
    = map translated_name (map fst done) /\
    activities evs
    = flat_map (body_schedule tr) done ++ announce tr (fst body) ++ part /\
    submits tr (snd body) = part ++ more.
Proof.
  intros tr st.
  destruct (failure_leaves_no_partial_output tr) as [A B]. split.
  - apply (A "Hello world"%string st ["Hello wo"%string] "rld"%string []
             (CompletionError "unavailable")).
    + reflexivity.
    + intros [|j] c H.
      * inversion H; subst c. do 3 eexists. split; reflexivity.
      * destruct j; discriminate H.
    + reflexivity.
  - apply (B "out"%string Demo.main_nodes Demo.fresh
             (CompletionError "unavailable")); reflexivity.
Defined.

(** ** The project *)

(** C1 (the main output): when the node list of the main source is
    [pre ++ doc :: post], the loader finds the document environment [env]
    in [doc] and in no other node, and the translation of the inner text
    of [env] returns [out], then the first file [translate_project] writes
    is the main output, and its text is the verbatim text of [pre], the
    marker [begin_marker], [out], the marker [end_marker] and the verbatim
    text of [post].  The verbatim text of [doc], which holds the markers of
    the source, is no part of it. *)
Theorem main_output_text
        (tr : LatexProjectTranslator) (to_dir : string)
        (pre post : list LatexNode) (doc : LatexNode)
        (env : LatexEnvironmentNode) (st st1 : State) (out : string) :
  source_nodes tr (main_source (source tr)) = Ok (pre ++ doc :: post) ->
  find_env_node (source tr) doc "document" = Some env ->
  (forall n, In n pre \/ In n post ->
             find_env_node (source tr) n "document" = None) ->
  translate tr (get_text_from_nodes (source tr) (Some (nodelist env)))
            (entry_state tr st) = (Ok out, st1) ->
  exists later,
    files_written (trace (snd (translate_project tr to_dir st)))
    = files_written (trace st)
      ++ (to_dir, translated_name (main_source (source tr)),
          (verbatim_text pre ++ begin_marker ++ out
             ++ end_marker ++ verbatim_text post)%string)
      :: later.
Proof.
  intros Hn Hdoc Hnone Htr.
  pose proof (scan_nodes_document tr pre post doc env Hdoc Hnone) as Hscan.
  rewrite (translate_project_eq tr to_dir _ st Hn).
  unfold main_body, main_full_text. rewrite Hscan. cbn [fst snd].
  destruct (translate_trace tr
              (get_text_from_nodes (source tr) (Some (nodelist env)))
              (entry_state tr st)) as (ev1 & Ht1 & Hf1 & _).
  rewrite Htr in *. cbn [fst snd] in Ht1.
  match goal with
  | |- context [translate_aux tr to_dir ?keys ?s] =>
      destruct (translate_aux_trace tr to_dir keys (fun k H => H) s)
        as (ev2 & Ht2 & _)
  end.
  exists (files_written ev2). rewrite Ht2. unfold written at 1. cbn [trace].
  rewrite Ht1. unfold entry_state at 1. cbn [trace].
  rewrite !files_written_app.
  rewrite Hf1, app_nil_r.
  replace (files_written
             (if update_ongoing_file_cb tr
              then [OngoingFile (main_source (source tr)) (mkRunState 0 [])]
              else [])) with (@nil (string * string * string))
    by (now destruct (update_ongoing_file_cb tr)).
  rewrite app_nil_r. cbn [files_written flat_map app].
  rewrite <- app_assoc. cbn [app].
  now rewrite !StrFacts.append_assoc.
Qed.

Lemma main_output_text_witness :
  exists later,
    files_written
      (trace (snd (translate_project (Demo.translator Demo.echo_service)
                                     "out" Demo.used)))
    = files_written (trace Demo.used)
      ++ ("out", "translated_m.tex",
          ("\documentclass{article}" ++ begin_marker ++ "Hello \LaTeX"
             ++ end_marker ++ "% end")%string)%string
      :: later.
Proof.
  apply (main_output_text
           (Demo.translator Demo.echo_service) "out"%string
           [LatexMacroNode "documentclass" "\documentclass{article}"]
           [LatexCharsNode "% end"]
           (LatexEnvNode Demo.document_env) Demo.document_env Demo.used
           (snd (translate (Demo.translator Demo.echo_service)
                           "Hello \LaTeX"
                           (entry_state (Demo.translator Demo.echo_service)
                                        Demo.used)))
           "Hello \LaTeX"%string).
  - reflexivity.
  - reflexivity.
  - intros n [[<-|[]]|[<-|[]]]; reflexivity.
  - reflexivity.
Defined.

(** C5 (one body after the other): with an ongoing-file callback
    registered and the main source among the sources, the bodies of a run
    are the main source and then the other keys in key order, and the run
    takes them one after the other: every body has its callback first,
    then the requests of its chunks in order, then its file.  A run that
    returns has done so for every body; a run that raises has done so for
    the bodies before one of them, and has fired the callback of that one
    and submitted some of its requests, in order, and nothing else.  So
    the activities of a run are always a prefix of the sequential
    schedule. *)
Theorem bodies_one_after_the_other
        (tr : LatexProjectTranslator) (to_dir : string)
        (nodes : list LatexNode) (st : State) :
  update_ongoing_file_cb tr = true ->
  source_nodes tr (main_source (source tr)) = Ok nodes ->
  let bodies := project_bodies tr nodes in
  let turn := fun body : string * string =>
                Ongoing (fst body)
                  :: submits tr (snd body)
                  ++ [WriteFile (translated_name (fst body))] in
  map fst bodies
  = main_source (source tr)
      :: filter (fun k => negb (String.eqb k (main_source (source tr))))
                (map fst (sources (source tr))) /\
  exists evs,
    trace (snd (translate_project tr to_dir st)) = trace st ++ evs /\
    (exists rest, flat_map turn bodies = activities evs ++ rest) /\
    match fst (translate_project tr to_dir st) with
    | Ok _ => activities evs = flat_map turn bodies
    | Raise _ =>
        exists done body rest part more,
          bodies = done ++ body :: rest /\
          activities evs = flat_map turn done ++ Ongoing (fst body) :: part /\
          submits tr (snd body) = part ++ more
    end.
Proof.
  intros Hcb Hn bodies turn.
  assert (Hturn : forall l, flat_map turn l = flat_map (body_schedule tr) l).
  { intros l. apply flat_map_ext. intros body.
    unfold turn, body_schedule, announce. now rewrite Hcb. }
  split.
  - unfold bodies, project_bodies. cbn [map main_body fst]. f_equal.
    apply aux_bodies_names. auto.
  - destruct (translate_project_trace tr to_dir nodes st Hn)
      as (evs & Ht & Ha).
    exists evs. split; [exact Ht|].
    destruct (fst (translate_project tr to_dir st)) as [u|e].
    + rewrite Hturn. fold (project_schedule tr nodes).
      split; [exists []; now rewrite app_nil_r, Ha | exact Ha].
    + destruct Ha as (done & body & rest & part & more & Hb & Hacts & Hsub).
      unfold announce in Hacts. rewrite Hcb in Hacts. cbn [app] in Hacts.
      split.
      * exists (more ++ [WriteFile (translated_name (fst body))]
                     ++ flat_map turn rest).
        unfold bodies. rewrite Hb, flat_map_app. cbn [flat_map].
        unfold turn at 2. rewrite Hsub, Hacts, Hturn.
        rewrite <- !app_assoc. cbn [app]. now rewrite <- !app_assoc.
      * exists done, body, rest, part, more. rewrite Hturn. now repeat split.
Qed.

Lemma bodies_one_after_the_other_witness :
  let tr := Demo.translator Demo.echo_service in
  let schedule :=
    [Ongoing "m.tex"; Submit (create_messages Demo.template "Hello \L");
     Submit (create_messages Demo.template "aTeX");
     WriteFile "translated_m.tex";
     Ongoing "a.tex"; Submit (create_messages Demo.template "An appen");
     Submit (create_messages Demo.template "dix.");
     WriteFile "translated_a.tex";
     Ongoing "b.tex"; Submit (create_messages Demo.template "B");
     WriteFile "translated_b.tex"]%string in
  ["m.tex"; "a.tex"; "b.tex"]%string
  = ["m.tex"; "a.tex"; "b.tex"]%string /\
  exists evs,
    trace (snd (translate_project tr "out" Demo.fresh)) = [] ++ evs /\
    (exists rest, schedule = activities evs ++ rest) /\
    activities evs = schedule.
Proof.
  intros tr schedule.
  exact (bodies_one_after_the_other tr "out"%string Demo.main_nodes
                                    Demo.fresh eq_refl eq_refl).
Defined.

(** C8 (the estimate): [estimate_tokens_cost] returns the number of chunks
    of the text and the sum, over the chunks, of the token counts of their
    messages, plus the token count of the text; it leaves the state as it
    is: no request is submitted. *)
Theorem estimate_tokens_cost_sum
        (tr : LatexProjectTranslator) (text : string) (st : State) :
  estimate_tokens_cost tr text st
  = (Ok (List.length (split_text (splitter tr) text),
         (fold_right Z.add 0
            (map (fun chunk =>
                    count_tokens_messages (llm tr)
                      (create_messages (template tr) chunk))
                 (split_text (splitter tr) text))
          + count_tokens_text (llm tr) text)%Z),
     st).
Proof.
  unfold estimate_tokens_cost, bind. rewrite estimate_loop_sum.
  reflexivity.
Qed.

(** C9 (the reset): what [translate_project] does and returns does not
    depend on the run state it is called in; the main body is announced
    and translated in a state with [translated_chunks = 0] and no response
    recorded, which is what the first callback sees; and a run that stops
    before any chunk leaves this state. *)
Theorem run_state_reset
        (tr : LatexProjectTranslator) (to_dir : string) :
  (forall r r' n t,
     translate_project tr to_dir (mkState r n t)
     = translate_project tr to_dir (mkState r' n t)) /\
  (forall st, exists later,
     run (entry_state tr st) = mkRunState 0 [] /\
     trace (snd (translate_project tr to_dir st))
     = trace st
       ++ (if update_ongoing_file_cb tr
           then [OngoingFile (main_source (source tr)) (mkRunState 0 [])]
           else [])
       ++ later) /\
  (forall st e,
     source_nodes tr (main_source (source tr)) = Raise e ->
     run (snd (translate_project tr to_dir st)) = mkRunState 0 []).
Proof.
  split; [|split].
  - intros r r' n t. reflexivity.
  - intros st.
    destruct (source_nodes tr (main_source (source tr))) as [nodes|e] eqn:Hn.
    + rewrite (translate_project_eq tr to_dir nodes st Hn).
      destruct (translate_trace tr (snd (main_body tr nodes))
                                (entry_state tr st)) as (ev1 & Ht1 & _).
      destruct (translate tr (snd (main_body tr nodes)) (entry_state tr st))
        as [[out|e] st1]; cbn [fst snd] in *.
      * match goal with
        | |- context [translate_aux tr to_dir ?keys ?s] =>
            destruct (translate_aux_trace tr to_dir keys (fun k H => H) s)
              as (ev2 & Ht2 & _)
        end.
        eexists. split; [reflexivity|]. rewrite Ht2.
        unfold written at 1. cbn [trace]. rewrite Ht1.
        unfold entry_state at 1. cbn [trace].
        rewrite <- !app_assoc. reflexivity.
      * exists ev1. split; [reflexivity|]. rewrite Ht1.
        unfold entry_state at 1. cbn [trace].
        now rewrite <- !app_assoc.
    + rewrite (translate_project_missing tr to_dir e st Hn).
      exists []. split; [reflexivity|]. cbn [snd].
      unfold entry_state. cbn [trace]. now rewrite app_nil_r.
  - intros st e Hn.
    now rewrite (translate_project_missing tr to_dir e st Hn).
Qed.

Lemma run_state_reset_witness :
  let tr := Demo.translator Demo.echo_service in
  translate_project tr "out"
                    (mkState (mkRunState 7 [mkResponse [] None]) 0 [])
  = translate_project tr "out" (mkState (mkRunState 0 []) 0 []) /\
  run (snd (translate_project Demo.orphan "out" Demo.used))
  = mkRunState 0 [].
Proof.
  intros tr. split.
  - apply (proj1 (run_state_reset tr "out"%string)).
  - apply (proj2 (proj2 (run_state_reset Demo.orphan "out"%string))
             Demo.used (KeyError "main.tex")).
    reflexivity.
Defined.

(** ** Usage *)

Lemma add_usage_step (response : Response) (prompt completion : Z) :
  whole_usage response ->
  add_usage (prompt, completion) response
  = ((prompt + fst (usage_pair response))%Z,
     (completion + snd (usage_pair response))%Z).
Proof.
  unfold add_usage, usage_pair.
  intros [->|(p & c & ->)]; cbn [fst snd]; [|reflexivity].
  now rewrite !Z.add_0_r.
Qed.

Lemma add_usage_whole (responses : list Response) :
  Forall whole_usage responses ->
  forall prompt completion,
    fold_left add_usage responses (prompt, completion)
    = ((prompt + fold_right Z.add 0 (map (fun r => fst (usage_pair r))
                                         responses))%Z,
       (completion + fold_right Z.add 0 (map (fun r => snd (usage_pair r))
                                             responses))%Z).
Proof.
  induction 1 as [|r rs Hr _ IH]; intros prompt completion.
  - simpl. now rewrite !Z.add_0_r.
  - cbn [fold_left map fold_right].
    rewrite (add_usage_step r prompt completion Hr), IH.
    f_equal; lia.
Qed.

(** On responses whose usage is absent or whole, the totals are the sums
    over the responses that have a usage. *)
Lemma get_total_usage_whole (s : RunState) :
  Forall whole_usage (translation_responses s) ->
  get_total_usage s
  = (fold_right Z.add 0%Z (map (fun r => fst (usage_pair r))
                               (translation_responses s)),
     fold_right Z.add 0%Z (map (fun r => snd (usage_pair r))
                               (translation_responses s))).
Proof. intros H. unfold get_total_usage. now rewrite add_usage_whole. Qed.

Example get_total_usage_13_7 :
  get_total_usage
    (mkRunState 3 [mkResponse [] (Some (mkUsage (Some 10%Z) (Some 5%Z)));
                   mkResponse [] None;
                   mkResponse [] (Some (mkUsage (Some 3%Z) (Some 2%Z)))])
  = (13%Z, 7%Z).
Proof. reflexivity. Qed.

(** C3, where the code leaves it: a recorded response whose usage has
    [prompt_tokens] and no [completion_tokens] is not skipped; its prompt
    tokens are counted. *)
Theorem get_total_usage_counts_half_usage :
  get_total_usage
    (mkRunState 1 [mkResponse [] (Some (mkUsage (Some 10%Z) None))])
  = (10%Z, 0%Z).
Proof. reflexivity. Qed.

(* ================================================================== *)
(** * Further facts about the methods *)
(* ================================================================== *)

Section Progress.

Variable tr : LatexProjectTranslator.

Lemma advanced_refl (st st' : State) :
  run st' = run st -> advanced st st' 0.
Proof.
  intros H. exists []. rewrite H, app_nil_r, Z.add_0_r. now repeat split.
Qed.

Lemma advanced_trans (a b c : State) (j k : nat) :
  advanced a b j -> advanced b c k -> advanced a c (j + k).
Proof.
  intros (n1 & L1 & R1 & C1) (n2 & L2 & R2 & C2).
  exists (n1 ++ n2). rewrite length_app, L1, L2, R2, R1, C2, C1.
  rewrite <- app_assoc. repeat split. lia.
Qed.

Lemma advanced_left (a a' b : State) (k : nat) :
  run a' = run a -> advanced a' b k -> advanced a b k.
Proof. intros H. unfold advanced. now rewrite H. Qed.

Lemma advanced_right (a b b' : State) (k : nat) :
  run b' = run b -> advanced a b k -> advanced a b' k.
Proof. intros H. unfold advanced. now rewrite H. Qed.

(** One turn of the loop of [translate]: a request, and a response
    recorded when the request was answered. *)
Lemma translate_chunk_advanced (chunk : string) (st : State) :
  let R := translate_chunk tr chunk st in
  n_requests (snd R) = S (n_requests st) /\
  exists k, advanced st (snd R) k /\ k <= 1 /\
            (forall t, fst R = Ok t -> k = 1).
Proof.
  cbv zeta.
  destruct (async_chat_completion (llm tr) (n_requests st)
              (create_messages (template tr) chunk)) as [r|e] eqn:H.
  - rewrite (translate_chunk_ok tr st chunk r H). cbn [fst snd n_requests].
    split; [reflexivity|]. exists 1. repeat split; auto.
    exists [r]. now repeat split.
  - rewrite (translate_chunk_raise tr st chunk e H). cbn [fst snd n_requests].
    split; [reflexivity|]. exists 0. repeat split; auto.
    + now apply advanced_refl.
    + discriminate.
Qed.

Lemma translate_loop_advanced (chunks : list string) :
  forall (acc : list string) (st : State),
    let R := translate_loop tr chunks acc st in
    exists k,
      advanced st (snd R) k /\
      n_requests st <= n_requests (snd R) /\
      (chunks <> [] -> n_requests st < n_requests (snd R)) /\
      (forall out, fst R = Ok out ->
                   k = List.length chunks /\
                   n_requests (snd R) = n_requests st + k).
Proof.
  induction chunks as [|chunk rest IH]; intros acc st; cbv zeta.
  - exists 0. cbn [translate_loop ret fst snd List.length].
    repeat split; auto; try lia.
    + now apply advanced_refl.
    + intros H. now contradiction H.
  - rewrite translate_loop_cons.
    destruct (translate_chunk_advanced chunk st)
      as (Hn & k1 & Ha & Hle & Hok).
    destruct (translate_chunk tr chunk st) as [[t|e] st1];
      cbn [fst snd] in *.
    + specialize (Hok t eq_refl). subst k1.
      destruct (IH (acc ++ [t]) st1) as (k & Hk & Hmono & _ & Hall).
      exists (1 + k). repeat split.
      * exact (advanced_trans _ _ _ _ _ Ha Hk).
      * lia.
      * intros _. lia.
      * apply Hall in H. cbn [List.length]. lia.
      * apply Hall in H. lia.
    + exists k1. repeat split; auto; try lia; discriminate.
Qed.

Lemma translate_advanced (text : string) (st : State) :
  let R := translate tr text st in
  exists k,
    advanced st (snd R) k /\
    n_requests st <= n_requests (snd R) /\
    (split_text (splitter tr) text <> [] ->
     n_requests st < n_requests (snd R)) /\
    (forall out, fst R = Ok out ->
                 k = List.length (split_text (splitter tr) text) /\
                 n_requests (snd R) = n_requests st + k).
Proof.
  cbv zeta. rewrite translate_eq.
  destruct (translate_loop_advanced (split_text (splitter tr) text) [] st)
    as (k & Ha & Hm & Hne & Hok).
  destruct (translate_loop tr (split_text (splitter tr) text) [] st)
    as [[out|e] st1]; cbn [fst snd] in *; exists k;
    (split; [|split; [|split]]); auto.
  - intros o _. now apply (Hok out).
  - discriminate.
Qed.

Lemma n_requests_written (to_dir name text : string) (st : State) :
  n_requests (written to_dir name text st) = n_requests st.
Proof. reflexivity. Qed.

(** One body, counted. *)
Lemma body_step_advanced (to_dir : string) (body : string * string)
      (text : string) (continue : M unit) (st : State)
      (later : list (string * string)) :
  (forall st1, exists k,
      advanced st1 (snd (continue st1)) k /\
      n_requests st1 <= n_requests (snd (continue st1)) /\
      (fst (continue st1) = Ok tt ->
       k = chunk_total tr later /\
       n_requests (snd (continue st1)) = n_requests st1 + k)) ->
  forall st0, run st0 = run st -> n_requests st0 = n_requests st ->
  let result :=
    match translate tr (snd body) st0 with
    | (Ok out, st1) =>
        continue (written to_dir (translated_name (fst body)) text st1)
    | (Raise e, st1) => (Raise e, st1)
    end in
  exists k,
    advanced st (snd result) k /\
    n_requests st <= n_requests (snd result) /\
    (fst result = Ok tt ->
     k = chunk_total tr (body :: later) /\
     n_requests (snd result) = n_requests st + k).
Proof.
  intros Hk st0 Hrun Hreq result. subst result.
  destruct (translate_advanced (snd body) st0) as (k1 & Ha & Hm & _ & Hok).
  destruct (translate tr (snd body) st0) as [[out|e] st1];
    cbn [fst snd] in *.
  - remember (written to_dir (translated_name (fst body)) text st1) as w
      eqn:Hw.
    assert (Hnw : n_requests w = n_requests st1) by now rewrite Hw.
    assert (Hrw : run w = run st1) by now rewrite Hw.
    clear Hw. destruct (Hk w) as (k2 & Ha2 & Hm2 & Hok2).
    destruct (continue w) as [res stw]. cbn [fst snd] in *.
    destruct (Hok out eq_refl) as [-> Hn1].
    exists (List.length (split_text (splitter tr) (snd body)) + k2).
    split; [|split].
    + apply (advanced_left st st0 _ _ Hrun).
      eapply advanced_trans; [exact Ha|].
      now apply (advanced_left st1 w).
    + lia.
    + intros H. apply Hok2 in H. destruct H as [-> H].
      change (chunk_total tr (body :: later))
        with (List.length (split_text (splitter tr) (snd body))
              + chunk_total tr later).
      split; lia.
  - exists k1. split; [|split].
    + now apply (advanced_left st st0 _ _ Hrun).
    + lia.
    + discriminate.
Qed.

Lemma translate_aux_advanced (to_dir : string) (keys : list string) :
  (forall k, In k keys -> In k (map fst (sources (source tr)))) ->
  forall st, exists k,
    advanced st (snd (translate_aux tr to_dir keys st)) k /\
    n_requests st <= n_requests (snd (translate_aux tr to_dir keys st)) /\
    (fst (translate_aux tr to_dir keys st) = Ok tt ->
     k = chunk_total tr (aux_bodies tr keys) /\
     n_requests (snd (translate_aux tr to_dir keys st))
     = n_requests st + k).
Proof.
  induction keys as [|src rest IH]; intros Hk st.
  - exists 0. cbn [translate_aux ret fst snd aux_bodies chunk_total
                   fold_right].
    repeat split; auto; try lia. now apply advanced_refl.
  - assert (Hrest : forall k, In k rest ->
                              In k (map fst (sources (source tr))))
      by (intros k H; apply Hk; now right).
    destruct (String.eqb src (main_source (source tr))) eqn:Hm.
    + rewrite (translate_aux_skip tr to_dir src rest Hm).
      simpl aux_bodies. rewrite Hm. now apply IH.
    + destruct (source_nodes_key tr src (Hk src (or_introl eq_refl)))
        as (nodes & Hn).
      rewrite (translate_aux_cons tr to_dir src rest nodes st Hm Hn).
      simpl aux_bodies. rewrite Hm, Hn.
      destruct (translate tr _ (announced tr src st))
        as [[out|e] st1] eqn:Ht.
      * pose proof (body_step_advanced to_dir
          (src, get_text_from_nodes (source tr) (Some nodes)) out
          (translate_aux tr to_dir rest) st (aux_bodies tr rest)
          (IH Hrest) (announced tr src st) eq_refl eq_refl) as H.
        cbv zeta in H. cbn [fst snd] in H. now rewrite Ht in H.
      * pose proof (body_step_advanced to_dir
          (src, get_text_from_nodes (source tr) (Some nodes)) ""%string
          (translate_aux tr to_dir rest) st (aux_bodies tr rest)
          (IH Hrest) (announced tr src st) eq_refl eq_refl) as H.
        cbv zeta in H. cbn [fst snd] in H. now rewrite Ht in H.
Qed.

Lemma translate_project_advanced (to_dir : string)
      (nodes : list LatexNode) (st : State) :
  source_nodes tr (main_source (source tr)) = Ok nodes ->
  exists k,
    advanced (entry_state tr st) (snd (translate_project tr to_dir st)) k /\
    (fst (translate_project tr to_dir st) = Ok tt ->
     k = chunk_total tr (project_bodies tr nodes) /\
     n_requests (snd (translate_project tr to_dir st))
     = n_requests st + k).
Proof.
  intros Hn. rewrite (translate_project_eq tr to_dir nodes st Hn).
  destruct (translate tr (snd (main_body tr nodes)) (entry_state tr st))
    as [[out|e] st1] eqn:Ht.
  - pose proof (body_step_advanced to_dir (main_body tr nodes)
      (main_full_text tr nodes out)
      (translate_aux tr to_dir (map fst (sources (source tr))))
      (entry_state tr st)
      (aux_bodies tr (map fst (sources (source tr))))
      (translate_aux_advanced to_dir _ (fun k H => H))
      (entry_state tr st) eq_refl eq_refl) as H.
    cbv zeta in H. change (fst (main_body tr nodes))
      with (main_source (source tr)) in H.
    rewrite Ht in H. destruct H as (k & Ha & _ & Hok).
    exists k. split; [exact Ha|]. exact Hok.
  - pose proof (body_step_advanced to_dir (main_body tr nodes) ""%string
      (translate_aux tr to_dir (map fst (sources (source tr))))
      (entry_state tr st)
      (aux_bodies tr (map fst (sources (source tr))))
      (translate_aux_advanced to_dir _ (fun k H => H))
      (entry_state tr st) eq_refl eq_refl) as H.
    cbv zeta in H. rewrite Ht in H. destruct H as (k & Ha & _ & Hok).
    exists k. split; [exact Ha|]. exact Hok.
Qed.

End Progress.

Section Outputs.

Variable tr : LatexProjectTranslator.

(** What the loop of [translate] returns: the accumulator extended by the
    texts extracted from the answers, which are recorded in the order of
    the chunks. *)
Lemma translate_loop_output (chunks : list string) :
  forall (acc out : list string) (st st' : State),
    translate_loop tr chunks acc st = (Ok out, st') ->
    exists responses texts,
      List.length responses = List.length chunks /\
      List.length texts = List.length chunks /\
      (forall k chunk,
          nth_error chunks k = Some chunk ->
          exists r txt,
            nth_error responses k = Some r /\
            nth_error texts k = Some txt /\
            async_chat_completion (llm tr) (n_requests st + k)
                                  (create_messages (template tr) chunk)
            = Ok r /\
            first_content r = Ok txt) /\
      translation_responses (run st')
      = translation_responses (run st) ++ responses /\
      out = acc ++ map Extractor.extract texts.
Proof.
  induction chunks as [|chunk rest IH]; intros acc out st st' H.
  - inversion H; subst. exists [], []. rewrite !app_nil_r.
    repeat split; auto. intros [|k] c Hc; discriminate Hc.
  - rewrite translate_loop_cons in H.
    destruct (async_chat_completion (llm tr) (n_requests st)
                (create_messages (template tr) chunk)) as [r|e] eqn:Hr.
    2:{ rewrite (translate_chunk_raise _ _ _ _ Hr) in H. discriminate. }
    rewrite (translate_chunk_ok _ _ _ _ Hr) in H.
    destruct (first_content r) as [txt|e] eqn:Hc; [|discriminate].
    apply IH in H.
    destruct H as (responses & texts & Hl1 & Hl2 & Hall & Hrs & Hout).
    cbn [run n_requests translation_responses] in *.
    exists (r :: responses), (txt :: texts). repeat split.
    + simpl. now rewrite Hl1.
    + simpl. now rewrite Hl2.
    + intros [|k] c Hk.
      * inversion Hk; subst c. exists r, txt.
        rewrite Nat.add_0_r. now repeat split.
      * destruct (Hall k c Hk) as (r' & txt' & H1 & H2 & H3 & H4).
        exists r', txt'. repeat split; auto.
        now replace (n_requests st + S k) with (S (n_requests st) + k)
          by lia.
    + now rewrite Hrs, <- app_assoc.
    + now rewrite Hout, <- app_assoc.
Qed.

(** ** A client that always answers *)

Section Answering.

Variable reply : list Message -> string.

Hypothesis answers :
  forall n messages,
  exists r, async_chat_completion (llm tr) n messages = Ok r /\
            first_content r = Ok (reply messages).

Lemma translate_loop_answering (chunks : list string) :
  forall (acc : list string) (st : State),
    fst (translate_loop tr chunks acc st)
    = Ok (acc ++ map (fun chunk =>
                        Extractor.extract
                          (reply (create_messages (template tr) chunk)))
                     chunks).
Proof.
  induction chunks as [|chunk rest IH]; intros acc st.
  - simpl. now rewrite app_nil_r.
  - rewrite translate_loop_cons.
    destruct (answers (n_requests st)
                      (create_messages (template tr) chunk))
      as (r & Hr & Hc).
    rewrite (translate_chunk_ok _ _ _ _ Hr), Hc, IH.
    now rewrite <- app_assoc.
Qed.

Lemma translate_answering (text : string) (st : State) :
  exists st' evs,
    translate tr text st = (Ok (translation tr reply text), st') /\
    trace st' = trace st ++ evs /\ files_written evs = [].
Proof.
  destruct (translate_trace tr text st) as (evs & Ht & Hf & _).
  rewrite translate_eq in *.
  pose proof (translate_loop_answering (split_text (splitter tr) text) [] st)
    as H.
  destruct (translate_loop tr (split_text (splitter tr) text) [] st)
    as [[out|e] st']; cbn [fst snd] in *; [|discriminate].
  inversion H; subst out. now exists st', evs.
Qed.

Lemma translate_aux_answering (to_dir : string) (keys : list string) :
  (forall k, In k keys -> In k (map fst (sources (source tr)))) ->
  forall st,
    fst (translate_aux tr to_dir keys st) = Ok tt /\
    files_written (trace (snd (translate_aux tr to_dir keys st)))
    = files_written (trace st)
      ++ map (fun body =>
                (to_dir, translated_name (fst body),
                 translation tr reply (snd body)))
             (aux_bodies tr keys).
Proof.
  induction keys as [|src rest IH]; intros Hk st.
  - simpl. now rewrite app_nil_r.
  - assert (Hrest : forall k, In k rest ->
                              In k (map fst (sources (source tr))))
      by (intros k H; apply Hk; now right).
    destruct (String.eqb src (main_source (source tr))) eqn:Hm.
    + rewrite (translate_aux_skip tr to_dir src rest Hm).
      simpl aux_bodies. rewrite Hm. now apply IH.
    + destruct (source_nodes_key tr src (Hk src (or_introl eq_refl)))
        as (nodes & Hn).
      rewrite (translate_aux_cons tr to_dir src rest nodes st Hm Hn).
      simpl aux_bodies. rewrite Hm, Hn.
      destruct (translate_answering
                  (get_text_from_nodes (source tr) (Some nodes))
                  (announced tr src st)) as (st1 & evs & -> & Ht & Hf).
      destruct (IH Hrest
                  (written to_dir (translated_name src)
                     (translation tr reply
                        (get_text_from_nodes (source tr) (Some nodes)))
                     st1)) as [-> ->].
      split; [reflexivity|].
      destruct (activities_announced tr src st) as (ev0 & Ht0 & _ & Hf0).
      unfold written at 1. cbn [trace map fst snd].
      rewrite Ht, Ht0, !files_written_app, Hf, Hf0, !app_nil_r.
      cbn [files_written flat_map app].
      now rewrite <- app_assoc.
Qed.

End Answering.

(** ** The first file of a run *)

Lemma first_file_written (to_dir : string) (nodes : list LatexNode)
      (st st1 : State) (out : string) :
  source_nodes tr (main_source (source tr)) = Ok nodes ->
  translate tr (snd (main_body tr nodes)) (entry_state tr st)
  = (Ok out, st1) ->
  exists later,
    files_written (trace (snd (translate_project tr to_dir st)))
    = files_written (trace st)
      ++ (to_dir, translated_name (main_source (source tr)),
          main_full_text tr nodes out) :: later.
Proof.
  intros Hn Htr.
  rewrite (translate_project_eq tr to_dir _ st Hn).
  destruct (translate_trace tr (snd (main_body tr nodes))
                            (entry_state tr st)) as (ev1 & Ht1 & Hf1 & _).
  rewrite Htr in *. cbn [fst snd] in Ht1.
  match goal with
  | |- context [translate_aux tr to_dir ?keys ?s] =>
      destruct (translate_aux_trace tr to_dir keys (fun k H => H) s)
        as (ev2 & Ht2 & _)
  end.
  exists (files_written ev2). rewrite Ht2. unfold written at 1. cbn [trace].
  rewrite Ht1. unfold entry_state at 1. cbn [trace].
  rewrite !files_written_app, Hf1, app_nil_r.
  replace (files_written
             (if update_ongoing_file_cb tr
              then [OngoingFile (main_source (source tr)) (mkRunState 0 [])]
              else [])) with (@nil (string * string * string))
    by (now destruct (update_ongoing_file_cb tr)).
  rewrite app_nil_r. cbn [files_written flat_map app].
  now rewrite <- app_assoc.
Qed.

(** A key that is not in the dict raises [KeyError]. *)
Lemma source_nodes_missing (key : string) :
  ~ In key (map fst (sources (source tr))) ->
  source_nodes tr key = Raise (KeyError key).
Proof.
  unfold source_nodes. induction (sources (source tr)) as [|[k v] l IH];
    intros H; [reflexivity|].
  simpl in *. destruct (String.eqb k key) eqn:E.
  - apply String.eqb_eq in E. contradiction H. now left.
  - apply IH. intros Hin. apply H. now right.
Qed.

(** ** A response without choices *)

Lemma translate_loop_malformed (chunk : string) (rest : list string)
      (r : Response) (done : list string) :
  forall (acc : list string) (st : State),
    (forall j c, nth_error done j = Some c ->
       exists r' m ms,
         async_chat_completion (llm tr) (n_requests st + j)
                               (create_messages (template tr) c) = Ok r' /\
         choices r' = m :: ms) ->
    async_chat_completion (llm tr) (n_requests st + List.length done)
                          (create_messages (template tr) chunk) = Ok r ->
    choices r = [] ->
    let R := translate_loop tr (done ++ chunk :: rest) acc st in
    fst R = Raise IndexError /\
    n_requests (snd R) = n_requests st + List.length done + 1 /\
    exists earlier,
      List.length earlier = List.length done /\
      translation_responses (run (snd R))
      = translation_responses (run st) ++ earlier ++ [r] /\
      translated_chunks (run (snd R))
      = (translated_chunks (run st)
         + Z.of_nat (List.length done) + 1)%Z.
Proof.
  induction done as [|c done IH]; intros acc st Hok Hr Hc; cbv zeta.
  - simpl app. rewrite translate_loop_cons.
    simpl in Hr. rewrite Nat.add_0_r in Hr.
    rewrite (translate_chunk_ok _ _ _ _ Hr).
    unfold first_content. rewrite Hc. cbn [fst snd run n_requests].
    split; [reflexivity|]. split; [simpl; lia|].
    exists []. cbn [translation_responses translated_chunks List.length].
    repeat split. lia.
  - simpl app. rewrite translate_loop_cons.
    destruct (Hok 0 c eq_refl) as (r0 & m & ms & Hr0 & Hm).
    rewrite Nat.add_0_r in Hr0.
    rewrite (translate_chunk_ok _ _ _ _ Hr0).
    assert (Hfc : first_content r0 = Ok (content m))
      by (unfold first_content; now rewrite Hm).
    rewrite Hfc.
    match goal with
    | |- context [translate_loop tr _ ?a ?s] =>
        remember s as st1 eqn:Hst1;
        assert (Hn1 : n_requests st1 = S (n_requests st))
          by (now rewrite Hst1);
        assert (Hr1 : translation_responses (run st1)
                      = translation_responses (run st) ++ [r0])
          by (now rewrite Hst1);
        assert (Hc1 : translated_chunks (run st1)
                      = (translated_chunks (run st) + 1)%Z)
          by (now rewrite Hst1);
        clear Hst1;
        destruct (IH a st1) as (H1 & H2 & earlier & H3 & H4 & H5)
    end.
    + intros j c' Hj. rewrite Hn1.
      replace (S (n_requests st) + j) with (n_requests st + S j) by lia.
      now apply Hok.
    + rewrite Hn1.
      replace (S (n_requests st) + List.length done)
        with (n_requests st + List.length (c :: done)) by (simpl; lia).
      exact Hr.
    + exact Hc.
    + split; [exact H1|]. split; [rewrite H2, Hn1; simpl; lia|].
      exists (r0 :: earlier). repeat split.
      * simpl. now rewrite H3.
      * rewrite H4, Hr1, <- !app_assoc. reflexivity.
      * rewrite H5, Hc1. cbn [List.length]. lia.
Qed.

(** ** [estimate_total_work] *)

Lemma find_document_nodes_fold (nodes : list LatexNode) :
  forall document_nodes before after,
    fold_left (fun document_nodes node =>
                 match find_env_node (source tr) node "document" with
                 | Some document_node => Some (nodelist document_node)
                 | None => document_nodes
                 end) nodes document_nodes
    = fst (fst (fold_left (scan_node tr) nodes
                          (document_nodes, before, after))).
Proof.
  induction nodes as [|node nodes IH]; intros d b a; [reflexivity|].
  cbn [fold_left]. unfold scan_node at 2.
  destruct (find_env_node (source tr) node "document") as [env|].
  - apply IH.
  - destruct d; apply IH.
Qed.

(** Both methods translate the same text for the main source. *)
Lemma find_document_nodes_scan (nodes : list LatexNode) :
  find_document_nodes tr nodes = fst (fst (scan_nodes tr nodes)).
Proof. apply find_document_nodes_fold. Qed.

Lemma collect_sources_texts (keys : list string) :
  (forall k, In k keys -> In k (map fst (sources (source tr)))) ->
  forall all st,
    collect_sources tr keys all st
    = (Ok (all ++ map snd (aux_bodies tr keys)), st).
Proof.
  induction keys as [|src rest IH]; intros Hk all st.
  - simpl. now rewrite app_nil_r.
  - assert (Hrest : forall k, In k rest ->
                              In k (map fst (sources (source tr))))
      by (intros k H; apply Hk; now right).
    simpl. destruct (String.eqb src (main_source (source tr))).
    + now apply IH.
    + destruct (source_nodes_key tr src (Hk src (or_introl eq_refl)))
        as (nodes & Hn).
      unfold bind, lift. rewrite Hn, (IH Hrest).
      cbn [map snd]. now rewrite <- app_assoc.
Qed.

Lemma estimate_tokens_cost_eq (text : string) (st : State) :
  estimate_tokens_cost tr text st
  = (Ok (List.length (split_text (splitter tr) text), text_tokens tr text),
     st).
Proof.
  unfold estimate_tokens_cost, bind. now rewrite estimate_loop_sum.
Qed.

Lemma estimate_sources_sum (texts : list string) :
  forall total_chunks total_tokens st,
    estimate_sources tr texts total_chunks total_tokens st
    = (Ok (total_chunks
           + fold_right (fun text n =>
                           List.length (split_text (splitter tr) text) + n)
                        0 texts,
           (total_tokens
            + fold_right (fun text n => text_tokens tr text + n) 0 texts)%Z),
       st).
Proof.
  induction texts as [|text rest IH]; intros c t st.
  - simpl. now rewrite Nat.add_0_r, Z.add_0_r.
  - cbn [estimate_sources]. unfold bind.
    rewrite estimate_tokens_cost_eq, IH. cbn [fold_right].
    apply f_equal2; [|reflexivity]. apply f_equal.
    apply f_equal2; lia.
Qed.

Lemma chunk_total_texts (bodies : list (string * string)) :
  chunk_total tr bodies
  = fold_right (fun text n =>
                  List.length (split_text (splitter tr) text) + n)
               0 (map snd bodies).
Proof.
  induction bodies as [|b bodies IH]; [reflexivity|].
  simpl. now rewrite <- IH.
Qed.

Lemma token_total_texts (bodies : list (string * string)) :
  token_total tr bodies
  = fold_right (fun text n => (text_tokens tr text + n)%Z) 0%Z
               (map snd bodies).
Proof.
  induction bodies as [|b bodies IH]; [reflexivity|].
  simpl. now rewrite <- IH.
Qed.

Lemma estimate_total_work_eq (nodes : list LatexNode) (st : State) :
  source_nodes tr (main_source (source tr)) = Ok nodes ->
  estimate_total_work tr st
  = (Ok (chunk_total tr (project_bodies tr nodes),
         token_total tr (project_bodies tr nodes)), st).
Proof.
  intros Hn. unfold estimate_total_work, bind at 1, lift. rewrite Hn.
  unfold bind. rewrite collect_sources_texts by auto.
  rewrite estimate_sources_sum, find_document_nodes_scan.
  rewrite chunk_total_texts, token_total_texts.
  reflexivity.
Qed.

End Outputs.

(** ** The totals of [get_total_usage] *)

Lemma add_usage_counted (responses : list Response) :
  forall prompt completion,
    fold_left add_usage responses (prompt, completion)
    = ((prompt + fold_right Z.add 0 (map (fun r => fst (usage_counted r))
                                         responses))%Z,
       (completion + fold_right Z.add 0 (map (fun r => snd (usage_counted r))
                                             responses))%Z).
Proof.
  induction responses as [|r rs IH]; intros prompt completion.
  - simpl. now rewrite !Z.add_0_r.
  - cbn [fold_left map fold_right].
    assert (E : add_usage (prompt, completion) r
                = ((prompt + fst (usage_counted r))%Z,
                   (completion + snd (usage_counted r))%Z)).
    { unfold add_usage, usage_counted.
      destruct (usage r) as [[[p|] [c|]]|]; cbn [fst snd];
        rewrite ?Z.add_0_r; reflexivity. }
    rewrite E, IH. f_equal; lia.
Qed.

(* ================================================================== *)
(** * Further properties *)
(* ================================================================== *)

(** ** The response extractor *)

(** X1: the text extracted from any response holds no triple backtick. *)
Theorem extract_leaves_no_fence (txt : string) :
  Str.occurs_fence (Extractor.extract txt) = false.
Proof.
  unfold Extractor.extract.
  destruct (Extractor.re_search txt); apply StrFacts.replace_fence_free.
Qed.

(** X2: extracting from an extracted text changes nothing. *)
Theorem extract_idempotent (txt : string) :
  Extractor.extract (Extractor.extract txt) = Extractor.extract txt.
Proof.
  assert (H : Str.occurs_fence (Extractor.extract txt) = false).
  { unfold Extractor.extract.
    destruct (Extractor.re_search txt); apply StrFacts.replace_fence_free. }
  unfold Extractor.extract at 1.
  rewrite (ExtractorFacts.re_search_fence_free _ H).
  apply (ExtractorFacts.replace_fence_fence_free _ H).
Qed.

(** X3: a response without a triple backtick is taken as it is. *)
Theorem extract_unfenced (txt : string) :
  Str.occurs_fence txt = false -> Extractor.extract txt = txt.
Proof.
  intros H. unfold Extractor.extract.
  rewrite (ExtractorFacts.re_search_fence_free _ H).
  apply (ExtractorFacts.replace_fence_fence_free _ H).
Qed.

Lemma extract_unfenced_witness :
  Extractor.extract "Bonjour `le` ``monde``" = "Bonjour `le` ``monde``"%string.
Proof. apply (extract_unfenced "Bonjour `le` ``monde``"). reflexivity. Defined.

(** X4: the search returns [g] exactly when [g] is the content of the
    region that opens at the leftmost fence of the text and closes at the
    first fence that leaves it one character at least. *)
Theorem re_search_region (s g : string) :
  Extractor.re_search s = Some g <->
  exists pre c q post,
    g = String c q /\
    s = (pre ++ "```" ++ g ++ "```" ++ post)%string /\
    Str.occurs_fence (pre ++ "``") = false /\
    Str.occurs_fence (q ++ "``") = false.
Proof.
  split.
  - apply ExtractorFacts.re_search_sound.
  - intros (pre & c & q & post & -> & -> & Hpre & Hq).
    now apply ExtractorFacts.re_search_first.
Qed.

Lemma re_search_region_witness :
  Extractor.re_search "a ```b`c``` d ```e```" = Some "b`c"%string.
Proof.
  apply (re_search_region "a ```b`c``` d ```e```" "b`c").
  exists "a "%string, "b"%char, "`c"%string, " d ```e```"%string.
  repeat split; reflexivity.
Defined.

(** X5: the search finds a region exactly when the text has two fences
    with a character between them. *)
Theorem re_search_finds (s : string) :
  (exists g, Extractor.re_search s = Some g) <->
  (exists pre c q post,
      s = (pre ++ "```" ++ String c q ++ "```" ++ post)%string).
Proof.
  split.
  - intros (g & H).
    destruct (ExtractorFacts.re_search_sound s g H)
      as (pre & c & q & post & -> & Hs & _).
    now exists pre, c, q, post.
  - intros (pre & c & q & post & ->).
    apply ExtractorFacts.re_search_complete.
Qed.

Lemma re_search_finds_witness :
  exists g, Extractor.re_search "x```````y" = Some g.
Proof.
  apply (re_search_finds "x```````y").
  exists "x"%string, "`"%char, ""%string, "y"%string. reflexivity.
Defined.

(** ** [translate] *)

(** X6: when [translate] returns, every chunk had one request, in chunk
    order, the [k]-th as request number [n_requests + k] on the messages of
    the [k]-th chunk; the answers are appended to [translation_responses]
    in this order, and the text returned is the concatenation of the texts
    extracted from the first choices of the answers. *)
Theorem translate_output
        (tr : LatexProjectTranslator) (text out : string) (st st' : State) :
  translate tr text st = (Ok out, st') ->
  exists responses texts,
    List.length responses = List.length (split_text (splitter tr) text) /\
    List.length texts = List.length (split_text (splitter tr) text) /\
    (forall k chunk,
        nth_error (split_text (splitter tr) text) k = Some chunk ->
        exists r txt,
          nth_error responses k = Some r /\
          nth_error texts k = Some txt /\
          async_chat_completion (llm tr) (n_requests st + k)
                                (create_messages (template tr) chunk)
          = Ok r /\
          first_content r = Ok txt) /\
    translation_responses (run st')
    = translation_responses (run st) ++ responses /\
    out = Str.join (map Extractor.extract texts).
Proof.
  intros H. rewrite translate_eq in H.
  destruct (translate_loop tr (split_text (splitter tr) text) [] st)
    as [[translated|e] st1] eqn:Hloop; [|discriminate].
  inversion H; subst.
  destruct (translate_loop_output tr _ _ _ _ _ Hloop)
    as (responses & texts & H1 & H2 & H3 & H4 & H5).
  exists responses, texts. repeat split; auto. now rewrite H5.
Qed.

Lemma translate_output_witness :
  let tr := Demo.translator Demo.echo_service in
  exists responses texts,
    List.length responses = 2 /\
    List.length texts = 2 /\
    (forall k chunk,
        nth_error ["Hello wo"; "rld"]%string k = Some chunk ->
        exists r txt,
          nth_error responses k = Some r /\
          nth_error texts k = Some txt /\
          async_chat_completion (llm tr) (7 + k)
                                (create_messages (template tr) chunk)
          = Ok r /\
          first_content r = Ok txt) /\
    translation_responses
      (run (snd (translate tr "Hello world" Demo.used)))
    = translation_responses (run Demo.used) ++ responses /\
    "Hello world"%string = Str.join (map Extractor.extract texts).
Proof.
  intros tr.
  apply (translate_output tr "Hello world" "Hello world" Demo.used
                          (snd (translate tr "Hello world" Demo.used))).
  reflexivity.
Defined.

(** X7: [translate] submits no request exactly when the splitter returns
    no chunk; it then returns the empty text and leaves the state as it
    is. *)
Theorem translate_without_chunks
        (tr : LatexProjectTranslator) (text : string) (st : State) :
  (split_text (splitter tr) text = [] ->
   translate tr text st = (Ok ""%string, st)) /\
  (n_requests (snd (translate tr text st)) = n_requests st ->
   split_text (splitter tr) text = []).
Proof.
  split.
  - intros H. rewrite translate_eq, H. reflexivity.
  - intros H.
    destruct (translate_advanced tr text st) as (k & _ & _ & Hne & _).
    destruct (split_text (splitter tr) text) as [|c l] eqn:E;
      [reflexivity|].
    assert (Hlt : n_requests st < n_requests (snd (translate tr text st)))
      by (apply Hne; discriminate).
    lia.
Qed.

Lemma translate_without_chunks_witness :
  translate (Demo.translator (Demo.failing_service 0)) "" Demo.used
  = (Ok ""%string, Demo.used).
Proof.
  apply (translate_without_chunks
           (Demo.translator (Demo.failing_service 0)) "" Demo.used).
  reflexivity.
Defined.

(** X8: when the answer to a chunk has no choice, [translate] raises
    [IndexError] after the answer was recorded and counted: the responses
    of the chunks before it and this one are appended, the counter is one
    higher for each, and no later chunk is submitted. *)
Theorem translate_answer_without_choice
        (tr : LatexProjectTranslator) (text chunk : string)
        (done rest : list string) (r : Response) (st : State) :
  split_text (splitter tr) text = done ++ chunk :: rest ->
  (forall j c, nth_error done j = Some c ->
     exists r' m ms,
       async_chat_completion (llm tr) (n_requests st + j)
                             (create_messages (template tr) c) = Ok r' /\
       choices r' = m :: ms) ->
  async_chat_completion (llm tr) (n_requests st + List.length done)
                        (create_messages (template tr) chunk) = Ok r ->
  choices r = [] ->
  fst (translate tr text st) = Raise IndexError /\
  n_requests (snd (translate tr text st))
  = n_requests st + List.length done + 1 /\
  exists earlier,
    List.length earlier = List.length done /\
    translation_responses (run (snd (translate tr text st)))
    = translation_responses (run st) ++ earlier ++ [r] /\
    translated_chunks (run (snd (translate tr text st)))
    = (translated_chunks (run st) + Z.of_nat (List.length done) + 1)%Z.
Proof.
  intros Hsplit Hok Hr Hc.
  pose proof (translate_loop_malformed tr chunk rest r done [] st Hok Hr Hc)
    as H. cbv zeta in H.
  rewrite translate_eq, Hsplit.
  destruct (translate_loop tr (done ++ chunk :: rest) [] st)
    as [[translated|e] st1]; cbn [fst snd] in *.
  - destruct H as [H _]. discriminate H.
  - destruct H as (H1 & H2 & H3). inversion H1; subst e. now repeat split.
Qed.

Lemma translate_answer_without_choice_witness :
  let tr := Demo.translator (Demo.mute_service 1) in
  fst (translate tr "Hello world" Demo.fresh) = Raise IndexError /\
  n_requests (snd (translate tr "Hello world" Demo.fresh)) = 2 /\
  exists earlier,
    List.length earlier = 1 /\
    translation_responses (run (snd (translate tr "Hello world" Demo.fresh)))
    = earlier ++ [mkResponse [] None] /\
    translated_chunks (run (snd (translate tr "Hello world" Demo.fresh)))
    = 2%Z.
Proof.
  intros tr.
  apply (translate_answer_without_choice
           tr "Hello world" "rld" ["Hello wo"%string] []
           (mkResponse [] None) Demo.fresh).
  - reflexivity.
  - intros [|j] c H.
    + inversion H; subst c. do 3 eexists. split; reflexivity.
    + destruct j; discriminate H.
  - reflexivity.
  - reflexivity.
Defined.

(** ** [translate_project] *)

(** X9: in a run of [translate_project] that returns, with a client
    whose answer to a list of messages has the text [reply messages], and a
    main source whose nodes are [pre ++ doc :: post] with the document
    environment [env] found in [doc] and in no other node, the files
    written are, in this order and all into [to_dir]: the main output,
    whose text is the verbatim text of [pre], [begin_marker], the
    translation of the inner text of [env], [end_marker] and the verbatim
    text of [post]; then one file per other source in key order, whose text
    is the translation of that source. *)
Theorem translate_project_with_answers
        (tr : LatexProjectTranslator) (reply : list Message -> string)
        (to_dir : string) (pre post : list LatexNode) (doc : LatexNode)
        (env : LatexEnvironmentNode) (st : State) :
  (forall n messages,
    exists r, async_chat_completion (llm tr) n messages = Ok r /\
              first_content r = Ok (reply messages)) ->
  source_nodes tr (main_source (source tr)) = Ok (pre ++ doc :: post) ->
  find_env_node (source tr) doc "document" = Some env ->
  (forall n, In n pre \/ In n post ->
             find_env_node (source tr) n "document" = None) ->
  fst (translate_project tr to_dir st) = Ok tt ->
  files_written (trace (snd (translate_project tr to_dir st)))
  = files_written (trace st)
    ++ (to_dir, translated_name (main_source (source tr)),
        (verbatim_text pre ++ begin_marker
           ++ translation tr reply
                (get_text_from_nodes (source tr) (Some (nodelist env)))
           ++ end_marker ++ verbatim_text post)%string)
    :: map (fun body =>
              (to_dir, translated_name (fst body),
               translation tr reply (snd body)))
           (aux_bodies tr (map fst (sources (source tr)))).
Proof.
  intros Hans Hn Hdoc Hnone _.
  pose proof (scan_nodes_document tr pre post doc env Hdoc Hnone) as Hscan.
  rewrite (translate_project_eq tr to_dir _ st Hn).
  destruct (translate_answering tr reply Hans
              (snd (main_body tr (pre ++ doc :: post)))
              (entry_state tr st))
    as (st1 & evs & -> & Ht & Hf).
  match goal with
  | |- context [translate_aux tr to_dir ?keys ?s] =>
      destruct (translate_aux_answering tr reply Hans to_dir keys
                                        (fun k H => H) s) as [_ ->]
  end.
  unfold written at 1. cbn [trace]. rewrite Ht.
  unfold entry_state at 1. cbn [trace].
  rewrite !files_written_app, Hf, app_nil_r.
  replace (files_written
             (if update_ongoing_file_cb tr
              then [OngoingFile (main_source (source tr)) (mkRunState 0 [])]
              else [])) with (@nil (string * string * string))
    by (now destruct (update_ongoing_file_cb tr)).
  rewrite app_nil_r. cbn [files_written flat_map app].
  unfold main_full_text, main_body. rewrite Hscan. cbn [fst snd].
  rewrite <- app_assoc. cbn [app]. now rewrite !StrFacts.append_assoc.
Qed.

Lemma translate_project_with_answers_witness :
  let tr := Demo.translator Demo.echo_service in
  files_written (trace (snd (translate_project tr "out" Demo.fresh)))
  = [("out", "translated_m.tex",
      ("\documentclass{article}" ++ begin_marker ++ "Hello \LaTeX"
         ++ end_marker ++ "% end"));
     ("out", "translated_a.tex", "An appendix.");
     ("out", "translated_b.tex", "B")]%string.
Proof.
  intros tr.
  apply (translate_project_with_answers
           tr Demo.echo_reply "out"%string
           [LatexMacroNode "documentclass" "\documentclass{article}"]
           [LatexCharsNode "% end"]
           (LatexEnvNode Demo.document_env) Demo.document_env Demo.fresh).
  - intros n messages. eexists. split; reflexivity.
  - reflexivity.
  - reflexivity.
  - intros n [[<-|[]]|[<-|[]]]; reflexivity.
  - reflexivity.
Defined.

(** X10: however [translate_project] ends, [translated_chunks] is the
    number of responses in [translation_responses]. *)
Theorem run_counter_matches_responses
        (tr : LatexProjectTranslator) (to_dir : string) (st : State) :
  translated_chunks (run (snd (translate_project tr to_dir st)))
  = Z.of_nat (List.length
                (translation_responses
                   (run (snd (translate_project tr to_dir st))))).
Proof.
  destruct (source_nodes tr (main_source (source tr))) as [nodes|e] eqn:Hn.
  - destruct (translate_project_advanced tr to_dir nodes st Hn)
      as (k & (new & Hl & Hr & Hc) & _).
    rewrite Hr, Hc, <- Hl. reflexivity.
  - now rewrite (translate_project_missing tr to_dir e st Hn).
Qed.

(** X11: when the main source is not a key of the sources,
    [translate_project] raises [KeyError] for it after the ongoing-file
    callback, with the run state reset, no request submitted and no file
    written; [estimate_total_work] raises the same error. *)
Theorem unknown_main_source
        (tr : LatexProjectTranslator) (to_dir : string) (st : State) :
  ~ In (main_source (source tr)) (map fst (sources (source tr))) ->
  translate_project tr to_dir st
  = (Raise (KeyError (main_source (source tr))), entry_state tr st) /\
  n_requests (snd (translate_project tr to_dir st)) = n_requests st /\
  files_written (trace (snd (translate_project tr to_dir st)))
  = files_written (trace st) /\
  estimate_total_work tr st
  = (Raise (KeyError (main_source (source tr))), st).
Proof.
  intros H. apply (source_nodes_missing tr) in H.
  rewrite (translate_project_missing tr to_dir _ st H).
  repeat split.
  - cbn [snd]. unfold entry_state. cbn [trace].
    rewrite files_written_app.
    destruct (update_ongoing_file_cb tr); simpl; now rewrite app_nil_r.
  - unfold estimate_total_work, bind, lift. now rewrite H.
Qed.

Lemma unknown_main_source_witness :
  translate_project Demo.orphan "out" Demo.used
  = (Raise (KeyError "main.tex"), entry_state Demo.orphan Demo.used) /\
  n_requests (snd (translate_project Demo.orphan "out" Demo.used)) = 7 /\
  files_written (trace (snd (translate_project Demo.orphan "out" Demo.used)))
  = [("out", "translated_old.tex", "old")]%string /\
  estimate_total_work Demo.orphan Demo.used
  = (Raise (KeyError "main.tex"), Demo.used).
Proof.
  apply (unknown_main_source Demo.orphan "out"%string Demo.used).
  intros [H|[]]. discriminate H.
Defined.

(** X12: when the loader finds no document environment in any node of the
    main source, the main output is still written: the verbatim text of
    all the nodes, then [begin_marker], the translation of what the loader
    returns for no node sequence, and [end_marker]. *)
Theorem main_output_without_environment
        (tr : LatexProjectTranslator) (to_dir : string)
        (nodes : list LatexNode) (st st1 : State) (out : string) :
  source_nodes tr (main_source (source tr)) = Ok nodes ->
  (forall n, In n nodes -> find_env_node (source tr) n "document" = None) ->
  translate tr (get_text_from_nodes (source tr) None) (entry_state tr st)
  = (Ok out, st1) ->
  exists later,
    files_written (trace (snd (translate_project tr to_dir st)))
    = files_written (trace st)
      ++ (to_dir, translated_name (main_source (source tr)),
          (verbatim_text nodes ++ begin_marker ++ out ++ end_marker)%string)
      :: later.
Proof.
  intros Hn Hnone Htr.
  assert (Hscan : scan_nodes tr nodes = (None, verbatim_text nodes, end_marker)).
  { unfold scan_nodes. now rewrite scan_before. }
  destruct (first_file_written tr to_dir nodes st st1 out Hn) as (later & H).
  { unfold main_body. rewrite Hscan. exact Htr. }
  exists later. rewrite H. unfold main_full_text. rewrite Hscan.
  cbn [fst snd]. now rewrite StrFacts.append_assoc.
Qed.

Lemma main_output_without_environment_witness :
  exists later,
    files_written (trace (snd (translate_project Demo.plain "out" Demo.fresh)))
    = files_written (trace Demo.fresh)
      ++ ("out", "translated_p.tex",
          ("\section{One} text" ++ begin_marker ++ "" ++ end_marker))%string
      :: later.
Proof.
  apply (main_output_without_environment
           Demo.plain "out"%string Demo.plain_nodes Demo.fresh
           (entry_state Demo.plain Demo.fresh) ""%string).
  - reflexivity.
  - intros n [<-|[<-|[]]]; reflexivity.
  - reflexivity.
Defined.

(** X13: when the loader finds a document environment in two nodes of the
    main source, the inner text of the second one is translated; the first
    node is neither translated nor copied, and the text between the two
    goes after [end_marker], before the text that follows the second. *)
Theorem main_output_last_environment
        (tr : LatexProjectTranslator) (to_dir : string)
        (pre mid post : list LatexNode) (doc1 doc2 : LatexNode)
        (env1 env2 : LatexEnvironmentNode) (st st1 : State) (out : string) :
  source_nodes tr (main_source (source tr))
  = Ok (pre ++ doc1 :: mid ++ doc2 :: post) ->
  find_env_node (source tr) doc1 "document" = Some env1 ->
  find_env_node (source tr) doc2 "document" = Some env2 ->
  (forall n, In n pre \/ In n mid \/ In n post ->
             find_env_node (source tr) n "document" = None) ->
  translate tr (get_text_from_nodes (source tr) (Some (nodelist env2)))
            (entry_state tr st) = (Ok out, st1) ->
  exists later,
    files_written (trace (snd (translate_project tr to_dir st)))
    = files_written (trace st)
      ++ (to_dir, translated_name (main_source (source tr)),
          (verbatim_text pre ++ begin_marker ++ out ++ end_marker
             ++ verbatim_text mid ++ verbatim_text post)%string)
      :: later.
Proof.
  intros Hn H1 H2 Hnone Htr.
  assert (Hscan : scan_nodes tr (pre ++ doc1 :: mid ++ doc2 :: post)
                  = (Some (nodelist env2), verbatim_text pre,
                     (end_marker ++ verbatim_text mid
                        ++ verbatim_text post)%string)).
  { unfold scan_nodes.
    rewrite fold_left_app, scan_before by (intros n H; apply Hnone; now left).
    cbn [fold_left]. rewrite (scan_node_found tr _ _ _ H1). cbn [fst snd].
    rewrite fold_left_app, scan_after
      by (intros n H; apply Hnone; right; now left).
    cbn [fold_left]. rewrite (scan_node_found tr _ _ _ H2). cbn [fst snd].
    rewrite scan_after by (intros n H; apply Hnone; right; now right).
    now rewrite StrFacts.append_assoc. }
  destruct (first_file_written tr to_dir _ st st1 out Hn) as (later & H).
  { unfold main_body. rewrite Hscan. exact Htr. }
  exists later. rewrite H. unfold main_full_text. rewrite Hscan.
  cbn [fst snd]. now rewrite !StrFacts.append_assoc.
Qed.

Lemma main_output_last_environment_witness :
  exists later,
    files_written (trace (snd (translate_project Demo.twice "out" Demo.fresh)))
    = files_written (trace Demo.fresh)
      ++ ("out", "translated_t.tex",
          ("% head" ++ begin_marker ++ "two" ++ end_marker
             ++ "% mid" ++ "% tail"))%string
      :: later.
Proof.
  apply (main_output_last_environment
           Demo.twice "out"%string
           [LatexCharsNode "% head"] [LatexCharsNode "% mid"]
           [LatexCharsNode "% tail"]
           (LatexEnvNode Demo.first_env) (LatexEnvNode Demo.second_env)
           Demo.first_env Demo.second_env Demo.fresh
           (snd (translate Demo.twice "two"
                           (entry_state Demo.twice Demo.fresh)))
           "two"%string).
  - reflexivity.
  - reflexivity.
  - reflexivity.
  - intros n [[<-|[]]|[[<-|[]]|[<-|[]]]]; reflexivity.
  - reflexivity.
Defined.

(** X14: a run of [translate_project] that returns has written one file
    per body and no other: [translated_] and the main source first, then
    [translated_] and every other key, in key order. *)
Theorem files_of_a_returned_run
        (tr : LatexProjectTranslator) (to_dir : string) (st : State) :
  fst (translate_project tr to_dir st) = Ok tt ->
  exists evs,
    trace (snd (translate_project tr to_dir st)) = trace st ++ evs /\
    map (fun f => snd (fst f)) (files_written evs)
    = map translated_name
          (main_source (source tr)
             :: filter (fun k =>
                          negb (String.eqb k (main_source (source tr))))
                       (map fst (sources (source tr)))).
Proof.
  intros Hok.
  destruct (source_nodes tr (main_source (source tr))) as [nodes|e] eqn:Hn.
  2:{ rewrite (translate_project_missing tr to_dir e st Hn) in Hok.
      discriminate Hok. }
  destruct (translate_project_trace tr to_dir nodes st Hn) as (evs & Ht & Ha).
  rewrite Hok in Ha. exists evs. split; [exact Ht|].
  rewrite written_names_files, Ha. unfold project_schedule.
  rewrite written_names_schedule. unfold project_bodies.
  cbn [map main_body fst]. do 2 f_equal.
  apply aux_bodies_names. auto.
Qed.

Lemma files_of_a_returned_run_witness :
  let tr := Demo.translator Demo.echo_service in
  exists evs,
    trace (snd (translate_project tr "out" Demo.used))
    = trace Demo.used ++ evs /\
    map (fun f => snd (fst f)) (files_written evs)
    = ["translated_m.tex"; "translated_a.tex"; "translated_b.tex"]%string.
Proof.
  intros tr.
  apply (files_of_a_returned_run tr "out"%string Demo.used). reflexivity.
Defined.

(** ** [estimate_total_work] and [get_total_usage] *)

(** X15: when the main source is among the sources,
    [estimate_total_work] returns the number of chunks and the tokens of
    [estimate_tokens_cost], added up over the text of the main body and
    the texts of the other sources in key order; it submits no request and
    leaves the state as it is. *)
Theorem estimate_total_work_sum
        (tr : LatexProjectTranslator) (nodes : list LatexNode) (st : State) :
  source_nodes tr (main_source (source tr)) = Ok nodes ->
  estimate_total_work tr st
  = (Ok (chunk_total tr (project_bodies tr nodes),
         token_total tr (project_bodies tr nodes)), st).
Proof. apply estimate_total_work_eq. Qed.

Lemma estimate_total_work_sum_witness :
  estimate_total_work (Demo.translator Demo.echo_service) Demo.used
  = (Ok (5, 265%Z), Demo.used).
Proof.
  apply (estimate_total_work_sum (Demo.translator Demo.echo_service)
                                 Demo.main_nodes Demo.used).
  reflexivity.
Defined.

(** X16: a run of [translate_project] that returns has submitted as many
    requests as [estimate_total_work] counts chunks, and ends with this
    number in [translated_chunks] and as many responses recorded. *)
Theorem estimate_predicts_requests
        (tr : LatexProjectTranslator) (to_dir : string) (st : State) :
  fst (translate_project tr to_dir st) = Ok tt ->
  exists total_chunks total_tokens,
    estimate_total_work tr st = (Ok (total_chunks, total_tokens), st) /\
    n_requests (snd (translate_project tr to_dir st))
    = n_requests st + total_chunks /\
    translated_chunks (run (snd (translate_project tr to_dir st)))
    = Z.of_nat total_chunks /\
    List.length (translation_responses
                   (run (snd (translate_project tr to_dir st))))
    = total_chunks.
Proof.
  intros Hok.
  destruct (source_nodes tr (main_source (source tr))) as [nodes|e] eqn:Hn.
  2:{ rewrite (translate_project_missing tr to_dir e st Hn) in Hok.
      discriminate Hok. }
  destruct (translate_project_advanced tr to_dir nodes st Hn)
    as (k & (new & Hl & Hr & Hc) & Hk).
  destruct (Hk Hok) as [Hk1 Hk2].
  exists (chunk_total tr (project_bodies tr nodes)),
         (token_total tr (project_bodies tr nodes)).
  split; [now apply estimate_total_work_eq|].
  split; [now rewrite Hk2, Hk1|].
  rewrite Hr, Hc, <- Hk1. cbn [entry_state run translated_chunks
                                translation_responses app].
  split; [reflexivity | exact Hl].
Qed.

Lemma estimate_predicts_requests_witness :
  let tr := Demo.translator Demo.echo_service in
  exists total_chunks total_tokens,
    estimate_total_work tr Demo.used
    = (Ok (total_chunks, total_tokens), Demo.used) /\
    n_requests (snd (translate_project tr "out" Demo.used))
    = 7 + total_chunks /\
    translated_chunks (run (snd (translate_project tr "out" Demo.used)))
    = Z.of_nat total_chunks /\
    List.length (translation_responses
                   (run (snd (translate_project tr "out" Demo.used))))
    = total_chunks.
Proof.
  intros tr.
  apply (estimate_predicts_requests tr "out"%string Demo.used). reflexivity.
Defined.

(** X17: the totals of [get_total_usage] are the sums of what each
    recorded response counts for: both fields of a usage that has both,
    the prompt tokens alone of a usage without [completion_tokens], and
    nothing for a response without usage or without [prompt_tokens]. *)
Theorem get_total_usage_sums (s : RunState) :
  get_total_usage s
  = (fold_right Z.add 0%Z (map (fun r => fst (usage_counted r))
                               (translation_responses s)),
     fold_right Z.add 0%Z (map (fun r => snd (usage_counted r))
                               (translation_responses s))).
Proof. unfold get_total_usage. now rewrite add_usage_counted. Qed.
